(** * NDLNoise: the sentence classifier and the trial engine

    A shallow embedding of [Sentence.py] and [main.py].

    Conventions of the embedding:
    - a Python [int] is a [Z];
    - a Python [float] is a [number]: a rational when finite, or an
      infinity, or NaN;
    - a Python [str] is a [string], its characters being the code points
      0..255;
    - a Python exception is a value of [exn], carried by the error monad
      [result];
    - a Python [dict] with string keys is a [gmap string _];
    - the code that [main.py] imports (the domain, the learner, [random],
      [datetime]) is a parameter: three type classes over an external state,
      through which the calls are threaded in order;
    - the generator expression of [run_simulations] is a state with a [next]
      function;
    - the worker pool of [run_simulations] is not embedded. *)

From Stdlib Require Import ZArith QArith Lqa Ascii String List Lia Bool.
From stdpp Require Import base option list sorting gmap strings.

Import ListNotations.
Local Open Scope string_scope.
Local Open Scope list_scope.
Local Open Scope Z_scope.

(** ** Exceptions *)

Inductive exn : Type :=
| IndexError
| ValueError
| LanguageNotFound (grammar_id : Z)
| SystemExit (status : Z)
| OtherError (msg : string).

Inductive result (A : Type) : Type :=
| Ok (a : A)
| Raise (e : exn).
Arguments Ok {A} a.
Arguments Raise {A} e.

#[global] Instance result_ret : MRet result := fun A a => Ok a.

#[global] Instance result_bind : MBind result := fun A B k r =>
  match r with
  | Ok a => k a
  | Raise e => Raise e
  end.

#[global] Instance result_fmap : FMap result := fun A B f r =>
  match r with
  | Ok a => Ok (f a)
  | Raise e => Raise e
  end.

(** ** Sentence.py *)

Module Sentence.

(** [str.split()] without arguments splits on runs of whitespace and drops
    empty pieces.  These are the whitespace code points below 256. *)
Definition isspace (c : ascii) : bool :=
  let n := nat_of_ascii c in
  ((9 <=? n)%nat && (n <=? 13)%nat)
  || ((28 <=? n)%nat && (n <=? 32)%nat)
  || (n =? 133)%nat || (n =? 160)%nat.

(** [flush cur acc]: close the word being read ([cur], never containing
    whitespace) in front of the words [acc] that follow it. *)
Definition flush (cur : string) (acc : list string) : list string :=
  match cur with
  | EmptyString => acc
  | _ => cur :: acc
  end.

(** [split_from cur s]: the words of [cur ++ s], where [cur] is the word read
    so far. *)
Fixpoint split_from (cur : string) (s : string) : list string :=
  match s with
  | EmptyString => flush cur []
  | String c s' =>
      if isspace c then flush cur (split_from EmptyString s')
      else split_from (cur ++ String c EmptyString) s'
  end.

Definition split (s : string) : list string := split_from EmptyString s.

(** [prefix_of key word]: [word.startswith(key)]. *)
Fixpoint prefix_of (key word : string) : bool :=
  match key, word with
  | EmptyString, _ => true
  | String _ _, EmptyString => false
  | String a key', String b word' => Ascii.eqb a b && prefix_of key' word'
  end.

(** [contains key word]: the Python test [key in word] on strings. *)
Fixpoint contains (key word : string) : bool :=
  prefix_of key word ||
  match word with
  | EmptyString => false
  | String _ word' => contains key word'
  end.

(** [list_index x l]: [l.index(x)], the position of the first element equal
    to [x]; [ValueError] when there is none. *)
Fixpoint list_index (x : string) (l : list string) : result Z :=
  match l with
  | [] => Raise ValueError
  | y :: l' =>
      if String.eqb y x then Ok 0
      else i ← list_index x l'; Ok (i + 1)
  end.

(** The loop of [indexString] over the words still to visit; [sentenceList]
    is the whole list, which [index] searches from its start. *)
Fixpoint indexString_loop (sentenceList : list string) (key : string)
    (todo : list string) : result Z :=
  match todo with
  | [] => Ok (-1)
  | word :: todo' =>
      if contains key word then list_index word sentenceList
      else indexString_loop sentenceList key todo'
  end.

(** [indexString] reads no attribute of [self] but [sentenceList]. *)
Definition indexString (sentenceList : list string) (key : string) : result Z :=
  indexString_loop sentenceList key sentenceList.

Record t : Type := mk {
  language : string;
  inflection : string;
  sentenceStr : string;
  sentenceList : list string;
  triggers : gmap string string;
  _outOblique : bool
}.

(** [infoList[i]]. *)
Definition getitem (infoList : list string) (i : nat) : result string :=
  match nth_error infoList i with
  | Some x => Ok x
  | None => Raise IndexError
  end.

(** The two tests of lines 20 and 22, and the test of line 24. *)
Definition caseA (O1index O2index Pindex O3index : Z) : bool :=
  (negb (O1index =? -1) && ((O1index <? O2index) && (O2index <? Pindex))
   && (O3index =? Pindex + 1))%Z.

Definition caseB (O1index O2index Pindex O3index : Z) : bool :=
  (negb (O3index =? -1) && ((O3index <? O2index) && (O2index <? O1index))
   && (Pindex =? O3index + 1))%Z.

Definition all_present (O1index O2index Pindex O3index : Z) : bool :=
  (negb (O1index =? -1) && negb (O2index =? -1) && negb (Pindex =? -1)
   && negb (O3index =? -1))%Z.

(** Lines 19-25: [_outOblique] is assigned [False], then reassigned by the
    first branch whose test holds. *)
Definition classify (O1index O2index Pindex O3index : Z) : bool :=
  let _outOblique := false in
  if caseA O1index O2index Pindex O3index then false
  else if caseB O1index O2index Pindex O3index then false
  else if all_present O1index O2index Pindex O3index then true
  else _outOblique.

(** [Sentence.__init__]. *)
Definition __init__ (infoList : list string) : result t :=
  language ← getitem infoList 0;
  inflection ← getitem infoList 1;
  sentenceStr ← getitem infoList 2;
  let sentenceList := split sentenceStr in
  O1index ← indexString sentenceList "O1";
  O2index ← indexString sentenceList "O2";
  Pindex ← indexString sentenceList "P";
  O3index ← indexString sentenceList "O3";
  Ok {| language := language;
        inflection := inflection;
        sentenceStr := sentenceStr;
        sentenceList := sentenceList;
        triggers := ∅;
        _outOblique := classify O1index O2index Pindex O3index |}.

Definition outOblique (self : t) : bool := _outOblique self.

End Sentence.

(** ** The classifier as the specification words it *)

Module Policy.

(** [key] occurs in [word] as a substring. *)
Definition is_substring (key word : string) : Prop :=
  ∃ pre post : string, word = String.append pre (String.append key post).

(** The four positional markers. *)
Definition markers : list string := ["O1"; "O2"; "P"; "O3"].

(** A marker is present when some token contains it, absent when none
    does. *)
Definition present (key : string) (tokens : list string) : Prop :=
  Exists (is_substring key) tokens.

Definition absent (key : string) (tokens : list string) : Prop :=
  Forall (λ w, ¬ is_substring key w) tokens.

(** [n] is the position of the first token that contains [key]. *)
Definition first_at (key : string) (tokens : list string) (n : nat) : Prop :=
  ∃ w : string,
    tokens !! n = Some w
    ∧ is_substring key w
    ∧ ∀ (m : nat) (w' : string),
        (m < n)%nat → tokens !! m = Some w' → ¬ is_substring key w'.

(** [indexOf(key)]: the position of the first token that contains [key], or
    -1 when no token contains it. *)
Definition index_of (key : string) (tokens : list string) (i : Z) : Prop :=
  (absent key tokens ∧ i = -1) ∨ (∃ n : nat, first_at key tokens n ∧ i = Z.of_nat n).

Definition canonicalA (O1 O2 P O3 : Z) : Prop :=
  O1 ≠ -1 ∧ (O1 < O2 < P) ∧ O3 = P + 1.

Definition canonicalB (O1 O2 P O3 : Z) : Prop :=
  O3 ≠ -1 ∧ (O3 < O2 < O1) ∧ P = O3 + 1.

Definition all_four_present (O1 O2 P O3 : Z) : Prop :=
  O1 ≠ -1 ∧ O2 ≠ -1 ∧ P ≠ -1 ∧ O3 ≠ -1.

(** The ordered decision policy: the first case that matches wins. *)
Definition decision_policy (O1 O2 P O3 : Z) : bool :=
  if decide (canonicalA O1 O2 P O3) then false
  else if decide (canonicalB O1 O2 P O3) then false
  else if decide (all_four_present O1 O2 P O3) then true
  else false.

End Policy.

(** ** The lookup in closed form

    One recursion over the tokens, through which the proofs go: the position
    of the first token on which [contains] holds, counted from [i], or -1. *)
Fixpoint indexOf_from (key : string) (tokens : list string) (i : Z) : Z :=
  match tokens with
  | [] => -1
  | w :: tokens' =>
      if Sentence.contains key w then i else indexOf_from key tokens' (i + 1)
  end.

Definition indexOf (key : string) (tokens : list string) : Z :=
  indexOf_from key tokens 0.

(** ** main.py: values *)

(** A Python number used as a rate or a noise level: an [int] or a [float].
    A finite float is the rational it denotes; the order of finite floats is
    the order of the rationals. *)
Inductive number : Type :=
| Finite (q : Q)
| PosInf
| NegInf
| NaN.

(** [a < b] on numbers: every comparison with NaN is false. *)
Definition num_lt (a b : number) : bool :=
  match a, b with
  | NaN, _ | _, NaN => false
  | Finite x, Finite y => match (x ?= y)%Q with Lt => true | _ => false end
  | NegInf, NegInf => false
  | NegInf, _ => true
  | _, NegInf => false
  | PosInf, _ => false
  | Finite _, PosInf => true
  end.

Record ExperimentParameters : Type := {
  languages : list Z;
  noise_levels : list number;
  learningrate : number;
  conservative_learningrate : number;
  num_sentences : Z;
  num_echildren : Z;
  num_procs : Z
}.

Record TrialParameters : Type := {
  language : Z;
  noise : number;
  rate : number;
  conservativerate : number;
  numberofsentences : Z
}.

(** The decimal literals of the source stand for the rationals they
    spell. *)
Module ExperimentDefaults.

Definition rate : number := Finite (9 # 10).
Definition conservativerate : number := Finite (5 # 10000).
Definition numberofsentences : Z := 500000.
Definition numechildren : Z := 100.
Definition noise_levels : list number :=
  [Finite 0; Finite (5 # 100); Finite (10 # 100); Finite (25 # 100);
   Finite (50 # 100)].

End ExperimentDefaults.

Module Language.

Definition English : Z := 611.
Definition French : Z := 584.
Definition German : Z := 2253.
Definition Japanese : Z := 3856.

End Language.

(** The values stored in a result dictionary.  A [datetime] is a count of
    microseconds, and so is a [timedelta]. *)
Inductive value : Type :=
| VInt (z : Z)
| VNum (x : number)
| VTime (t : Z)
| VDelta (d : Z).

(** [dataclasses.asdict(params)]. *)
Definition asdict (params : TrialParameters) : gmap string value :=
  <["numberofsentences" := VInt (numberofsentences params)]>
  (<["conservativerate" := VNum (conservativerate params)]>
  (<["rate" := VNum (rate params)]>
  (<["noise" := VNum (noise params)]>
  (<["language" := VInt (language params)]> ∅)))).

(** A dictionary display that unpacks [d] and then [new]: the entries of
    [new] replace those of [d] with the same key. *)
Definition dict_update (d new : gmap string value) : gmap string value :=
  new ∪ d.

(** ** main.py: the collaborators

    [Ext] is the state that lives outside [main.py]: the generator behind
    [random()], the clock, and whatever the domain and the learner keep. *)

Class Runtime (Ext : Type) : Type := {
  (** [random.random()] *)
  random : Ext → Q * Ext;
  (** [datetime.now()] *)
  now : Ext → Z * Ext
}.

Class ColagDomain (Ext : Type) : Type := {
  init_from_flatfile : number → number → Ext → result unit * Ext;
  get_sentence_in_language : Z → Ext → result Sentence.t * Ext;
  get_sentence_not_in_language : Z → Ext → result Sentence.t * Ext
}.

Class NDChild (Ext Child : Type) : Type := {
  (** the constructor [InstrumentedNDChild(rate, conservativerate, language)] *)
  InstrumentedNDChild : number → number → Z → Child;
  consumeSentence : Child → Sentence.t → Ext → result Child * Ext;
  target_language : Child → Z;
  grammar : Child → gmap string value
}.

(** The calls a trial makes to its collaborators, in order; [error] is the
    exception the call raised, if any. *)
Inductive event : Type :=
| Sampled (not_in_language : bool) (grammar_id : Z) (error : option exn)
| Consumed (error : option exn).

Definition error_of {A} (r : result A) : option exn :=
  match r with
  | Ok _ => None
  | Raise e => Some e
  end.

Record World (Ext : Type) : Type := {
  ext : Ext;
  trace : list event
}.
Arguments ext {Ext} _.
Arguments trace {Ext} _.

(** State and exceptions: a computation ends in a value or in a raised
    exception, and in both cases leaves a world behind. *)
Definition M (Ext A : Type) : Type := World Ext → result A * World Ext.

#[global] Instance M_ret {Ext} : MRet (M Ext) := fun A a w => (Ok a, w).

#[global] Instance M_bind {Ext} : MBind (M Ext) := fun A B k m w =>
  match m w with
  | (Ok a, w') => k a w'
  | (Raise e, w') => (Raise e, w')
  end.

Section Engine.
Context {Ext Child : Type}.
Context `{!Runtime Ext, !ColagDomain Ext, !NDChild Ext Child}.

(** An external call that cannot raise. *)
Definition call {A} (f : Ext → A * Ext) : M Ext A := fun w =>
  let (a, e') := f (ext w) in
  (Ok a, {| ext := e'; trace := trace w |}).

(** An external call that may raise, recorded in the trace. *)
Definition call_logged {A} (f : Ext → result A * Ext)
    (ev : option exn → event) : M Ext A := fun w =>
  let (r, e') := f (ext w) in
  (r, {| ext := e'; trace := trace w ++ [ev (error_of r)] |}).

Definition DOMAIN_get_sentence_in_language (grammar_id : Z) : M Ext Sentence.t :=
  call_logged (get_sentence_in_language grammar_id) (Sampled false grammar_id).

Definition DOMAIN_get_sentence_not_in_language (grammar_id : Z)
  : M Ext Sentence.t :=
  call_logged (get_sentence_not_in_language grammar_id) (Sampled true grammar_id).

Definition aChild_consumeSentence (aChild : Child) (s : Sentence.t)
  : M Ext Child :=
  call_logged (consumeSentence aChild s) Consumed.

(** The body of the [for] loop of [run_child], [n] iterations being left. *)
Fixpoint run_child_loop (language : Z) (noise : number) (n : nat)
    (aChild : Child) : M Ext Child :=
  match n with
  | O => mret aChild
  | S n' =>
      u ← call random;
      s ← (if num_lt (Finite u) noise
           then DOMAIN_get_sentence_not_in_language language
           else DOMAIN_get_sentence_in_language language);
      aChild ← aChild_consumeSentence aChild s;
      run_child_loop language noise n' aChild
  end.

(** [range(numberofsentences)] has [Z.to_nat numberofsentences] elements. *)
Definition run_child (language : Z) (noise rate conservativerate : number)
    (numberofsentences : Z) : M Ext Child :=
  let aChild := InstrumentedNDChild rate conservativerate language in
  run_child_loop language noise (Z.to_nat numberofsentences) aChild.

(** The three entries that lead the dictionary display of [run_trial]. *)
Definition leading_entries (child : Child) (then_ now_ : Z)
  : gmap string value :=
  <["language" := VInt (target_language child)]>
  (<["duration" := VDelta (now_ - then_)]>
  (<["timestamp" := VTime now_]> ∅)).

(** The dictionary display of [run_trial]: the three entries, then the
    grammar of the child unpacked, then the fields of [params] unpacked. *)
Definition results_dict (params : TrialParameters) (child : Child)
    (then_ now_ : Z) : gmap string value :=
  dict_update (dict_update (leading_entries child then_ now_) (grammar child))
    (asdict params).

(** [run_trial]; the logging calls are left out.  The dictionary of fields
    is unpacked into the keyword arguments of [run_child], so each field is
    passed under its own name. *)
Definition run_trial (params : TrialParameters) : M Ext (gmap string value) :=
  then_ ← call now;
  child ← run_child (language params) (noise params) (rate params)
            (conservativerate params) (numberofsentences params);
  now_ ← call now;
  mret (results_dict params child then_ now_).

(** The domain rejects [grammar_id]: it raises [err] whenever a sentence is
    asked for it. *)
Definition rejects (grammar_id : Z) (err : exn) : Prop :=
  ∀ e, (get_sentence_in_language grammar_id e).1 = Raise err
       ∧ (get_sentence_not_in_language grammar_id e).1 = Raise err.

(** A run from the empty trace. *)
Definition run {A} (m : M Ext A) (e : Ext) : result A * World Ext :=
  m {| ext := e; trace := [] |}.

End Engine.

(** ** main.py: the trial generator of [run_simulations] *)

Module Trials.

(** The element the generator expression builds for [lang] and [noise]. *)
Definition element (params : ExperimentParameters) (lang : Z) (noise : number)
  : TrialParameters :=
  {| language := lang;
     noise := noise;
     rate := learningrate params;
     numberofsentences := num_sentences params;
     conservativerate := conservative_learningrate params |}.

(** A generator is suspended between two elements.  [Start]: not yet
    started, holding the iterator over [params.languages] (the outermost
    iterable is evaluated when the generator is created).  [Running]:
    suspended at the [yield], holding the three iterators (the languages and
    the noise levels still to come, and how many values of the [range] are
    left) and the loop variables. *)
Inductive state : Type :=
| Start (langs : list Z)
| Running (langs : list Z) (lang : Z) (noises : list number) (noise : number)
    (remaining : nat)
| Exhausted.

(** Enter the loop over the noise levels [noises] for [lang], and run up to
    the next [yield]; [None] when this loop ends without one. *)
Fixpoint enter_noise (params : ExperimentParameters) (langs : list Z)
    (lang : Z) (noises : list number) : option (TrialParameters * state) :=
  match noises with
  | [] => None
  | noise :: noises' =>
      match Z.to_nat (num_echildren params) with
      | O => enter_noise params langs lang noises'
      | S remaining =>
          Some (element params lang noise, Running langs lang noises' noise remaining)
      end
  end.

(** The same for the loop over the languages. *)
Fixpoint enter_lang (params : ExperimentParameters) (langs : list Z)
  : option (TrialParameters * state) :=
  match langs with
  | [] => None
  | lang :: langs' =>
      match enter_noise params langs' lang (noise_levels params) with
      | Some r => Some r
      | None => enter_lang params langs'
      end
  end.

(** [next(trials)]: the next element and the state to resume from, or
    [None] for [StopIteration]. *)
Definition next (params : ExperimentParameters) (st : state)
  : option TrialParameters * state :=
  match st with
  | Start langs =>
      match enter_lang params langs with
      | Some (t, st') => (Some t, st')
      | None => (None, Exhausted)
      end
  | Running langs lang noises noise (S remaining) =>
      (Some (element params lang noise), Running langs lang noises noise remaining)
  | Running langs lang noises noise O =>
      match enter_noise params langs lang noises with
      | Some (t, st') => (Some t, st')
      | None =>
          match enter_lang params langs with
          | Some (t, st') => (Some t, st')
          | None => (None, Exhausted)
          end
      end
  | Exhausted => (None, Exhausted)
  end.

(** The generator expression [trials]. *)
Definition trials (params : ExperimentParameters) : state :=
  Start (languages params).

Definition num_trials (params : ExperimentParameters) : Z :=
  num_echildren params
  * Z.of_nat (length (languages params))
  * Z.of_nat (length (noise_levels params)).

(** [yields params st l]: pulling from [st] until [StopIteration] gives the
    elements [l], in this order, and then the generator is exhausted. *)
Inductive yields (params : ExperimentParameters) : state → list TrialParameters → Prop :=
| yields_stop st st' :
    next params st = (None, st') →
    yields params st []
| yields_next st t st' l :
    next params st = (Some t, st') →
    yields params st' l →
    yields params st (t :: l).

(** [resumes params o l]: the generator, resumed up to its next [yield] with
    outcome [o], yields [l] in all. *)
Definition resumes (params : ExperimentParameters)
    (o : option (TrialParameters * state)) (l : list TrialParameters) : Prop :=
  match o with
  | Some (t, st') => ∃ l', l = t :: l' ∧ yields params st' l'
  | None => l = []
  end.

(** Pull at most [fuel] elements. *)
Fixpoint take (params : ExperimentParameters) (fuel : nat) (st : state)
  : list TrialParameters :=
  match fuel with
  | O => []
  | S fuel' =>
      match next params st with
      | (Some t, st') => t :: take params fuel' st'
      | (None, _) => []
      end
  end.

(** The number of values of [range(params.num_echildren)]. *)
Definition replications (params : ExperimentParameters) : nat :=
  Z.to_nat (num_echildren params).

(** What the loop over the noise levels [noises] yields for [lang], and what
    the loop over the languages [langs] yields, when run to the end. *)
Definition of_noises (params : ExperimentParameters) (lang : Z)
    (noises : list number) : list TrialParameters :=
  flat_map
    (λ noise, map (λ _, element params lang noise) (seq 0 (replications params)))
    noises.

Definition of_langs (params : ExperimentParameters) (langs : list Z)
  : list TrialParameters :=
  flat_map (λ lang, of_noises params lang (noise_levels params)) langs.

(** The three nested loops, run to the end. *)
Definition unrolled (params : ExperimentParameters) : list TrialParameters :=
  of_langs params (languages params).

(** The (grammar, noise, replication-index) combinations, as positions in
    the two lists and in the range: grammars outermost, replications
    innermost. *)
Definition combinations (g n r : nat) : list (nat * nat * nat) :=
  flat_map
    (λ a, flat_map (λ b, map (λ c, (a, b, c)) (seq 0 r)) (seq 0 n))
    (seq 0 g).

(** The order of three nested loops: first by grammar, then by noise level,
    then by replication. *)
Definition nested_lt (x y : nat * nat * nat) : Prop :=
  (x.1.1 < y.1.1
   ∨ (x.1.1 = y.1.1 ∧ (x.1.2 < y.1.2 ∨ (x.1.2 = y.1.2 ∧ x.2 < y.2))))%nat.

(** The trial [t] is the one of the combination [abc]. *)
Definition carries (params : ExperimentParameters) (t : TrialParameters)
    (abc : nat * nat * nat) : Prop :=
  languages params !! abc.1.1 = Some (language t)
  ∧ noise_levels params !! abc.1.2 = Some (noise t)
  ∧ rate t = learningrate params
  ∧ conservativerate t = conservative_learningrate params
  ∧ numberofsentences t = num_sentences params.

End Trials.


(** ** main.py: the command line *)

(** What [parse_arguments] returns. *)
Record Namespace : Type := {
  args_rate : number;
  args_cons_rate : number;
  args_num_echildren : Z;
  args_num_sents : Z;
  args_noise_levels : list number;
  args_num_procs : Z;
  args_verbose : bool
}.

(** A command line after argparse has matched the option strings: for each
    option the argument strings given to it ([None]: the option is absent).
    [-n] takes one or more arguments. *)
Record CommandLine : Type := {
  opt_rate : option string;
  opt_cons_rate : option string;
  opt_num_echildren : option string;
  opt_num_sents : option string;
  opt_noise_levels : option (list string);
  opt_num_procs : option string;
  opt_verbose : bool
}.

Section CLI.
(** The builtins [float] and [int] on strings ([None]: [ValueError]) and
    [multiprocessing.cpu_count()]. *)
Variable float : string → option number.
Variable int : string → option Z.
Variable cpu_count : Z.

(** argparse reports a failed conversion by exiting with status 2. *)
Definition convert {A} (type : string → option A) (arg : string) : result A :=
  match type arg with
  | Some a => Ok a
  | None => Raise (SystemExit 2)
  end.

(** An option with one argument and a default. *)
Definition option_arg {A} (type : string → option A) (default : A)
    (given : option string) : result A :=
  match given with
  | None => Ok default
  | Some arg => convert type arg
  end.

Fixpoint convert_all {A} (type : string → option A) (args : list string)
  : result (list A) :=
  match args with
  | [] => Ok []
  | arg :: args' =>
      a ← convert type arg; l ← convert_all type args'; Ok (a :: l)
  end.

(** An option with [nargs="+"]. *)
Definition option_args {A} (type : string → option A) (default : list A)
    (given : option (list string)) : result (list A) :=
  match given with
  | None => Ok default
  | Some [] => Raise (SystemExit 2)
  | Some args => convert_all type args
  end.

Definition parse_arguments (argv : CommandLine) : result Namespace :=
  rate ← option_arg float ExperimentDefaults.rate (opt_rate argv);
  cons_rate ← option_arg float ExperimentDefaults.conservativerate
                (opt_cons_rate argv);
  num_echildren ← option_arg int ExperimentDefaults.numechildren
                    (opt_num_echildren argv);
  num_sents ← option_arg int ExperimentDefaults.numberofsentences
                (opt_num_sents argv);
  noise_levels ← option_args float ExperimentDefaults.noise_levels
                   (opt_noise_levels argv);
  num_procs ← option_arg int cpu_count (opt_num_procs argv);
  Ok {| args_rate := rate;
        args_cons_rate := cons_rate;
        args_num_echildren := num_echildren;
        args_num_sents := num_sents;
        args_noise_levels := noise_levels;
        args_num_procs := num_procs;
        args_verbose := opt_verbose argv |}.

(** The [ExperimentParameters] that [main] builds from the arguments. *)
Definition main_params (args : Namespace) : ExperimentParameters :=
  {| learningrate := args_rate args;
     conservative_learningrate := args_cons_rate args;
     num_sentences := args_num_sents args;
     noise_levels := args_noise_levels args;
     num_procs := args_num_procs args;
     num_echildren := args_num_echildren args;
     languages := [Language.English; Language.French; Language.German;
                   Language.Japanese] |}.


(** [main] up to the call of [run_simulations]: the experiment whose trials
    are handed to the pool, or the exit of the argument parser. *)
Definition main_experiment (argv : CommandLine) : result ExperimentParameters :=
  args ← parse_arguments argv;
  Ok (main_params args).

End CLI.

(** ** Reading a trace *)

(** The number of calls of the in-language path ([not_in_language = false])
    or of the not-in-language path ([true]). *)
Fixpoint calls (not_in_language : bool) (tr : list event) : nat :=
  match tr with
  | [] => 0%nat
  | Sampled b _ _ :: tr' =>
      ((if Bool.eqb b not_in_language then 1 else 0) + calls not_in_language tr')%nat
  | Consumed _ :: tr' => calls not_in_language tr'
  end.

Definition event_error (ev : event) : option exn :=
  match ev with
  | Sampled _ _ error => error
  | Consumed error => error
  end.

(** The call returned normally. *)
Definition returned (ev : event) : Prop := event_error ev = None.

(** A sampling call asked for the grammar [grammar_id]. *)
Definition samples_from (grammar_id : Z) (ev : event) : Prop :=
  match ev with
  | Sampled _ g _ => g = grammar_id
  | Consumed _ => True
  end.

(** The events of a run of the loop: every sampling call asks for the
    trial's grammar; all calls return normally, unless the loop raises, and
    then the last call is the one that raised and the only one. *)
Definition fail_fast (language : Z) {A} (r : result A) (evs : list event) : Prop :=
  Forall (samples_from language) evs
  ∧ match r with
    | Ok _ => Forall returned evs
    | Raise err =>
        ∃ evs0 ev,
          evs = evs0 ++ [ev] ∧ Forall returned evs0 ∧ event_error ev = Some err
    end.

(** ** Stand-ins for the collaborators

    Enough of a runtime, a domain and a learner to run the engine: the
    external state is a counter; the domain knows the four grammars of
    [Language]; the learner counts the sentences it has consumed and resolves
    its target language with [resolve]. *)

Module StandIn.

Definition known (grammar_id : Z) : bool :=
  bool_decide (grammar_id ∈ [Language.English; Language.French;
                             Language.German; Language.Japanese]).

Definition a_sentence : Sentence.t :=
  {| Sentence.language := "611";
     Sentence.inflection := "DEC";
     Sentence.sentenceStr := "S Aux Verb O1";
     Sentence.sentenceList := ["S"; "Aux"; "Verb"; "O1"];
     Sentence.triggers := ∅;
     Sentence._outOblique := false |}.

Definition sample (grammar_id : Z) (e : nat) : result Sentence.t * nat :=
  if known grammar_id then (Ok a_sentence, S e)
  else (Raise (LanguageNotFound grammar_id), e).

#[local] Instance runtime (u : Q) : Runtime nat :=
  {| random := λ e, (u, S e);
     now := λ e, (Z.of_nat e, S e) |}.

#[local] Instance domain : ColagDomain nat :=
  {| init_from_flatfile := λ _ _ e, (Ok tt, e);
     get_sentence_in_language := sample;
     get_sentence_not_in_language := sample |}.

Record child : Type := {
  configured : Z;
  consumed : nat
}.

#[local] Instance learner (resolve : Z → Z) : NDChild nat child :=
  {| InstrumentedNDChild := λ _ _ language,
       {| configured := language; consumed := 0 |};
     consumeSentence := λ c _ e,
       (Ok {| configured := configured c; consumed := S (consumed c) |}, e);
     target_language := λ c, resolve (configured c);
     grammar := λ c, {[ "SP" := VNum (Finite (1 # 2)) ]} |}.

(** The value of a string of decimal digits read after [acc]. *)
Fixpoint digits (acc : N) (s : string) : option N :=
  match s with
  | EmptyString => Some acc
  | String c s' =>
      let n := N_of_ascii c in
      if ((48 <=? n) && (n <=? 57))%N then digits (acc * 10 + (n - 48))%N s'
      else None
  end.

Definition nonempty_digits (s : string) : option N :=
  match s with
  | EmptyString => None
  | _ => digits 0 s
  end.

(** The text before and after the first ["."]. *)
Fixpoint split_point (s : string) : string * option string :=
  match s with
  | EmptyString => (EmptyString, None)
  | String c s' =>
      if Ascii.eqb c "."%char then (EmptyString, Some s')
      else let (a, b) := split_point s' in (String c a, b)
  end.

(** [float] on the literals [digits] and [digits.digits], which it converts
    as Python does up to rounding; anything else is refused here. *)
Definition float (s : string) : option number :=
  match split_point s with
  | (whole, None) => w ← nonempty_digits whole; Some (Finite (Z.of_N w # 1))
  | (whole, Some frac) =>
      w ← nonempty_digits whole;
      f ← nonempty_digits frac;
      let scale := Pos.pow 10 (Pos.of_nat (String.length frac)) in
      Some (Finite ((Z.of_N w * Z.pos scale + Z.of_N f) # scale))
  end.

(** [int] on the literals [digits]. *)
Definition int (s : string) : option Z :=
  w ← nonempty_digits s; Some (Z.of_N w).

Definition cpu_count : Z := 4.

End StandIn.

(** ** Reading a token list *)

Module Text.

(** Some character of [s] is whitespace. *)
Fixpoint has_space (s : string) : bool :=
  match s with
  | EmptyString => false
  | String c s' => Sentence.isspace c || has_space s'
  end.

(** [s] without its whitespace characters. *)
Fixpoint strip (s : string) : string :=
  match s with
  | EmptyString => EmptyString
  | String c s' => if Sentence.isspace c then strip s' else String c (strip s')
  end.

(** The tokens written one after the other. *)
Definition join (tokens : list string) : string :=
  fold_right String.append EmptyString tokens.

End Text.

(** ** Reading a trial *)

(** The number of calls of [consumeSentence]. *)
Fixpoint consumptions (tr : list event) : nat :=
  match tr with
  | [] => 0%nat
  | Consumed _ :: tr' => S (consumptions tr')
  | Sampled _ _ _ :: tr' => consumptions tr'
  end.

(** The trace of rounds that all return normally: for each path of [paths],
    a sentence of [language] is sampled on that path and then consumed. *)
Definition rounds (language : Z) (paths : list bool) : list event :=
  flat_map (λ b, [Sampled b language None; Consumed None]) paths.

(** The names of the fields of [TrialParameters]. *)
Definition field_names : list string :=
  ["language"; "noise"; "rate"; "conservativerate"; "numberofsentences"].

(** The number of elements of [l] on which [f] holds. *)
Definition count {A} (f : A → bool) (l : list A) : nat :=
  length (List.filter f l).


(** * Properties *)

(** ** Concrete runs *)

Example split_runs_of_whitespace :
  Sentence.split ("  S O1" +:+ String "009"%char "O2  P O3 Verb ")
  = ["S"; "O1"; "O2"; "P"; "O3"; "Verb"].
Proof. reflexivity. Qed.

Example indexString_embedded_marker :
  Sentence.indexString ["Adv"; "XO1Y"; "O1"] "O1" = Ok 1.
Proof. reflexivity. Qed.

Example indexString_absent_marker :
  Sentence.indexString ["Adv"; "Verb"] "O3" = Ok (-1).
Proof. reflexivity. Qed.

Example canonical_case_A :
  Sentence.outOblique <$> Sentence.__init__ ["611"; "DEC"; "S O1 O2 P O3 Verb"]
  = Ok false.
Proof. reflexivity. Qed.

Example canonical_case_B :
  Sentence.outOblique <$> Sentence.__init__ ["611"; "DEC"; "O3 P O2 O1 Verb"]
  = Ok false.
Proof. reflexivity. Qed.

Example non_canonical_oblique :
  Sentence.outOblique <$> Sentence.__init__ ["611"; "DEC"; "O2 S O1 P O3 Verb"]
  = Ok true.
Proof. reflexivity. Qed.

Example too_short_an_infoList :
  Sentence.__init__ ["611"; "DEC"] = Raise IndexError.
Proof. reflexivity. Qed.

Example three_replications :
  Trials.take
    {| languages := [Language.English];
       noise_levels := [Finite 0];
       learningrate := ExperimentDefaults.rate;
       conservative_learningrate := ExperimentDefaults.conservativerate;
       num_sentences := 10;
       num_echildren := 3;
       num_procs := 2 |}
    5
    (Trials.Start [Language.English])
  = replicate 3
      {| language := Language.English;
         noise := Finite 0;
         rate := ExperimentDefaults.rate;
         conservativerate := ExperimentDefaults.conservativerate;
         numberofsentences := 10 |}.
Proof. reflexivity. Qed.

(** ** The index lookup of the classifier *)

Section IndexString.
Import Sentence Policy.

Lemma prefix_of_spec key word :
  prefix_of key word = true ↔ ∃ post, word = String.append key post.
Proof.
  revert word. induction key as [|a key IH]; intros word; simpl.
  - split; [intros _; by exists word | done].
  - destruct word as [|b word].
    + split; [done | intros [post Hpost]; discriminate].
    + rewrite andb_true_iff, IH. split.
      * intros [Hab [post ->]]. apply Ascii.eqb_eq in Hab as ->. by exists post.
      * intros [post Hpost]. injection Hpost as -> ->.
        split; [apply Ascii.eqb_refl | by exists post].
Qed.

Lemma contains_spec key word :
  contains key word = true ↔ is_substring key word.
Proof.
  unfold is_substring. induction word as [|b word IH].
  - simpl. rewrite orb_false_r, prefix_of_spec. split.
    + intros [post Hpost]. by exists EmptyString, post.
    + intros [pre [post Hw]]. destruct pre; [by exists post | discriminate].
  - cbn [contains]. rewrite orb_true_iff, IH, prefix_of_spec. split.
    + intros [[post Hpost] | [pre [post Hw]]].
      * by exists EmptyString, post.
      * exists (String b pre), post. simpl. by rewrite Hw.
    + intros [pre [post Hw]]. destruct pre as [|c pre].
      * left. by exists post.
      * right. injection Hw as -> ->. by exists pre, post.
Qed.

(** [index] of a word placed after words that all differ from it. *)
Lemma list_index_app word done todo :
  Forall (λ w, w ≠ word) done →
  list_index word (done ++ word :: todo) = Ok (Z.of_nat (length done)).
Proof.
  induction 1 as [|w done Hw _ IH]; simpl.
  - by rewrite String.eqb_refl.
  - destruct (String.eqb_spec w word) as [->|_]; [done |].
    rewrite IH. cbn. f_equal. lia.
Qed.

Lemma indexOf_from_app key done todo i :
  Forall (λ w, contains key w = false) done →
  indexOf_from key (done ++ todo) i
  = indexOf_from key todo (i + Z.of_nat (length done)).
Proof.
  intros Hdone. revert i. induction Hdone as [|w done Hw _ IH]; intros i; simpl.
  - f_equal. lia.
  - rewrite Hw, IH. f_equal. lia.
Qed.

(** The loop invariant of [indexString]: the words visited so far do not
    contain the key. *)
Lemma indexString_loop_indexOf key done todo :
  Forall (λ w, contains key w = false) done →
  indexString_loop (done ++ todo) key todo = Ok (indexOf key (done ++ todo)).
Proof.
  revert done. induction todo as [|word todo IH]; intros done Hdone.
  - unfold indexOf. rewrite indexOf_from_app by done. done.
  - simpl. destruct (contains key word) eqn:Hword.
    + rewrite list_index_app.
      * unfold indexOf. rewrite indexOf_from_app by done. simpl.
        by rewrite Hword.
      * eapply Forall_impl; [exact Hdone |]. intros w Hw ->. congruence.
    + replace (done ++ word :: todo) with ((done ++ [word]) ++ todo)
        by (by rewrite <- app_assoc).
      apply IH. apply Forall_app. split; [done | by constructor].
Qed.

Lemma indexString_indexOf tokens key :
  indexString tokens key = Ok (indexOf key tokens).
Proof. apply (indexString_loop_indexOf key [] tokens). constructor. Qed.

Lemma indexOf_from_range key tokens i :
  indexOf_from key tokens i = -1
  ∨ i ≤ indexOf_from key tokens i < i + Z.of_nat (length tokens).
Proof.
  revert i. induction tokens as [|w tokens IH]; intros i; simpl; [by left |].
  destruct (contains key w); [right; lia |].
  destruct (IH (i + 1)) as [-> | ?]; [by left | right; lia].
Qed.

(** The index is -1 or a position of the list. *)
Lemma indexOf_range key tokens :
  indexOf key tokens = -1
  ∨ 0 ≤ indexOf key tokens < Z.of_nat (length tokens).
Proof. apply (indexOf_from_range key tokens 0). Qed.

Lemma indexOf_from_absent key tokens (i : Z) :
  (0 ≤ i)%Z →
  indexOf_from key tokens i = -1 ↔ Forall (λ w, ¬ is_substring key w) tokens.
Proof.
  revert i. induction tokens as [|w tokens IH]; intros i Hi; simpl.
  - split; [constructor | done].
  - destruct (contains key w) eqn:Hw.
    + split; [lia |]. intros Hall. apply Forall_cons in Hall as [Hnot _].
      apply contains_spec in Hw. done.
    + rewrite IH by lia. split.
      * intros Hall. constructor; [| done].
        rewrite <- contains_spec. congruence.
      * intros Hall. by apply Forall_cons in Hall as [_ ?].
Qed.

(** -1 is returned exactly when no token contains the key. *)
Lemma indexOf_absent key tokens :
  indexOf key tokens = -1 ↔ Forall (λ w, ¬ is_substring key w) tokens.
Proof. by apply indexOf_from_absent. Qed.

(** A position is returned exactly when it is the first one whose token
    contains the key. *)
Lemma indexOf_first key tokens (i : nat) w :
  tokens !! i = Some w →
  is_substring key w →
  (∀ (j : nat) w', (j < i)%nat → tokens !! j = Some w' → ¬ is_substring key w') →
  indexOf key tokens = Z.of_nat i.
Proof.
  intros Hi Hw Hbefore.
  rewrite <- (take_drop_middle tokens i w Hi).
  unfold indexOf. rewrite indexOf_from_app.
  - simpl. apply contains_spec in Hw. rewrite Hw.
    rewrite length_take_le; [lia |]. apply lookup_lt_Some in Hi. lia.
  - apply Forall_forall. intros w' Hw'.
    apply list_elem_of_lookup in Hw' as [j Hj].
    pose proof (lookup_lt_Some _ _ _ Hj) as Hlt.
    rewrite length_take in Hlt. rewrite lookup_take_lt in Hj by lia.
    destruct (contains key w') eqn:Hc; [| done].
    apply contains_spec in Hc. exfalso. apply (Hbefore j w'); [lia | done | done].
Qed.

Lemma indexOf_from_first_at key tokens (i0 : Z) (n : nat) :
  0 ≤ i0 →
  indexOf_from key tokens i0 = i0 + Z.of_nat n →
  first_at key tokens n.
Proof.
  revert i0 n. induction tokens as [|w tokens IH]; intros i0 n Hi0; simpl.
  - lia.
  - destruct (contains key w) eqn:Hw.
    + intros Hn. assert (n = 0%nat) as -> by lia.
      exists w. split_and!; [done | by apply contains_spec | intros; lia].
    + intros Hn. destruct (indexOf_from_range key tokens (i0 + 1)) as [Hr|Hr];
        [lia |].
      destruct n as [|n]; [lia |].
      destruct (IH (i0 + 1) n) as (w0 & Hlook & Hsub & Hbefore); [lia | lia |].
      exists w0. split_and!; [done | done |].
      intros [|m] w' Hm Hlook' Hsub'.
      * injection Hlook' as <-. apply contains_spec in Hsub'. congruence.
      * apply (Hbefore m w'); [lia | done | done].
Qed.

(** The closed form is the index of the specification, and the only one. *)
Lemma index_of_indexOf key tokens : index_of key tokens (indexOf key tokens).
Proof.
  destruct (indexOf_range key tokens) as [Hr|Hr].
  - left. split; [by apply indexOf_absent | done].
  - right. exists (Z.to_nat (indexOf key tokens)). split; [| lia].
    apply (indexOf_from_first_at key tokens 0); [done |].
    fold (indexOf key tokens). lia.
Qed.

Lemma index_of_unique key tokens i :
  index_of key tokens i → i = indexOf key tokens.
Proof.
  intros [[Habs ->] | (n & (w & Hlook & Hsub & Hbefore) & ->)].
  - symmetry. by apply indexOf_absent.
  - symmetry. by eapply indexOf_first.
Qed.

End IndexString.

(** C6. [indexString] never raises; it returns the position of the first token
    that contains the key as a substring, and -1 when no token contains it.
    A token "FooO2Bar" is found for the key "O2" where a token "O2" in its
    place would be. *)
Theorem indexString_first_containing (tokens : list string) (key : string) :
  (∃ i, Sentence.indexString tokens key = Ok i ∧ Policy.index_of key tokens i)
  ∧ (∀ (i : nat) (w : string),
       tokens !! i = Some w →
       Policy.is_substring key w →
       (∀ (j : nat) (w' : string),
          (j < i)%nat → tokens !! j = Some w' → ¬ Policy.is_substring key w') →
       Sentence.indexString tokens key = Ok (Z.of_nat i))
  ∧ (Policy.absent key tokens → Sentence.indexString tokens key = Ok (-1))
  ∧ (∀ pre post : list string,
       Sentence.indexString (pre ++ "FooO2Bar" :: post) "O2"
       = Sentence.indexString (pre ++ "O2" :: post) "O2").
Proof.
  split_and!.
  - eexists. split; [apply indexString_indexOf | apply index_of_indexOf].
  - intros i w Hi Hw Hbefore. rewrite indexString_indexOf.
    f_equal. by eapply indexOf_first.
  - intros Habs. rewrite indexString_indexOf. f_equal.
    by apply indexOf_absent.
  - intros pre post. rewrite !indexString_indexOf. f_equal.
    unfold indexOf. generalize 0. induction pre as [|w pre IH]; intros i.
    + reflexivity.
    + simpl. destruct (Sentence.contains "O2" w); [done | apply IH].
Qed.

Lemma indexString_first_containing_witness :
  Sentence.indexString ["S"; "FooO2Bar"; "O2"] "O2" = Ok 1.
Proof.
  apply (proj1 (proj2 (indexString_first_containing ["S"; "FooO2Bar"; "O2"] "O2"))
           1%nat "FooO2Bar").
  - reflexivity.
  - exists "Foo", "Bar". reflexivity.
  - intros j w' Hj Hlook Hsub. apply contains_spec in Hsub.
    destruct j as [|j]; [| lia]. injection Hlook as <-. vm_compute in Hsub.
    discriminate.
Defined.

(** ** The non-canonical oblique flag *)

Section Classifier.
Import Sentence Policy.

Lemma caseA_spec O1 O2 P O3 : caseA O1 O2 P O3 = true ↔ canonicalA O1 O2 P O3.
Proof.
  unfold caseA, canonicalA.
  rewrite !andb_true_iff, negb_true_iff, Z.eqb_neq, !Z.ltb_lt, Z.eqb_eq.
  tauto.
Qed.

Lemma caseB_spec O1 O2 P O3 : caseB O1 O2 P O3 = true ↔ canonicalB O1 O2 P O3.
Proof.
  unfold caseB, canonicalB.
  rewrite !andb_true_iff, negb_true_iff, Z.eqb_neq, !Z.ltb_lt, Z.eqb_eq.
  tauto.
Qed.

Lemma all_present_spec O1 O2 P O3 :
  all_present O1 O2 P O3 = true ↔ all_four_present O1 O2 P O3.
Proof.
  unfold all_present, all_four_present.
  rewrite !andb_true_iff, !negb_true_iff, !Z.eqb_neq. tauto.
Qed.

(** The chain of branches of the constructor computes the ordered policy. *)
Lemma classify_decision_policy O1 O2 P O3 :
  classify O1 O2 P O3 = decision_policy O1 O2 P O3.
Proof.
  unfold classify, decision_policy.
  pose proof (caseA_spec O1 O2 P O3) as HA.
  pose proof (caseB_spec O1 O2 P O3) as HB.
  pose proof (all_present_spec O1 O2 P O3) as HP.
  destruct (caseA O1 O2 P O3), (caseB O1 O2 P O3), (all_present O1 O2 P O3);
    repeat case_decide; try done;
    repeat match goal with
           | H : true = true ↔ _ |- _ => apply proj1 in H; specialize (H eq_refl)
           | H : false = true ↔ _ |- _ => apply proj2 in H
           end; try done;
    exfalso; match goal with H : _ → false = true |- _ => by discriminate H end.
Qed.

(** What a successful construction has computed. *)
Lemma init_inv infoList self :
  __init__ infoList = Ok self →
  ∃ language inflection text,
    infoList !! 0%nat = Some language
    ∧ infoList !! 1%nat = Some inflection
    ∧ infoList !! 2%nat = Some text
    ∧ self = {| Sentence.language := language;
                inflection := inflection;
                sentenceStr := text;
                sentenceList := split text;
                triggers := ∅;
                _outOblique :=
                  classify (indexOf "O1" (split text)) (indexOf "O2" (split text))
                    (indexOf "P" (split text)) (indexOf "O3" (split text)) |}.
Proof.
  unfold __init__, getitem.
  destruct infoList as [|language [|inflection [|text rest]]]; simpl;
    try discriminate.
  rewrite !indexString_indexOf. simpl. intros [= <-].
  by exists language, inflection, text.
Qed.

(** The constructor succeeds on every list of at least three strings. *)
Lemma init_total language inflection text rest :
  ∃ self, __init__ (language :: inflection :: text :: rest) = Ok self.
Proof.
  unfold __init__, getitem. simpl. rewrite !indexString_indexOf. simpl.
  by eexists.
Qed.

Lemma present_indexOf key tokens : present key tokens ↔ indexOf key tokens ≠ -1.
Proof.
  rewrite indexOf_absent. unfold present. split.
  - intros Hex Hall. by apply Forall_Exists_neg in Hall.
  - intros Hn. induction tokens as [|w tokens IH].
    + destruct Hn. constructor.
    + destruct (contains key w) eqn:Hw.
      * left. by apply contains_spec.
      * right. apply IH. intros Hall. apply Hn. constructor; [| done].
        rewrite <- contains_spec. congruence.
Qed.

End Classifier.

(** C1. For a constructed sentence, whose tokens are the whitespace-separated
    words of the sentence string, and with the four indices being the
    positions of the first tokens that contain O1, O2, P and O3 (-1 for an
    absent marker), the flag is the result of the ordered decision policy:
    canonical case A gives false, else canonical case B gives false, else all
    four markers present gives true, else false. *)
Theorem outOblique_decision_policy (infoList : list string) (self : Sentence.t)
    (O1 O2 P O3 : Z) :
  Sentence.__init__ infoList = Ok self →
  Policy.index_of "O1" (Sentence.sentenceList self) O1 →
  Policy.index_of "O2" (Sentence.sentenceList self) O2 →
  Policy.index_of "P" (Sentence.sentenceList self) P →
  Policy.index_of "O3" (Sentence.sentenceList self) O3 →
  infoList !! 2%nat = Some (Sentence.sentenceStr self)
  ∧ Sentence.sentenceList self = Sentence.split (Sentence.sentenceStr self)
  ∧ Sentence.outOblique self = Policy.decision_policy O1 O2 P O3.
Proof.
  intros Hinit H1 H2 HP H3.
  apply index_of_unique in H1 as ->, H2 as ->, HP as ->, H3 as ->.
  apply init_inv in Hinit as (language & inflection & text & _ & _ & Htext & ->).
  unfold Sentence.outOblique. simpl.
  by rewrite classify_decision_policy.
Qed.

Lemma outOblique_decision_policy_witness :
  ∃ self : Sentence.t,
    Sentence.__init__ ["611"; "DEC"; "Adv O2 O1 P O3 Verb"] = Ok self
    ∧ Sentence.outOblique self = Policy.decision_policy 2 1 3 4.
Proof.
  eexists. split.
  - vm_compute. reflexivity.
  - apply (outOblique_decision_policy ["611"; "DEC"; "Adv O2 O1 P O3 Verb"]).
    + reflexivity.
    + apply (index_of_indexOf "O1" ["Adv"; "O2"; "O1"; "P"; "O3"; "Verb"]).
    + apply (index_of_indexOf "O2" ["Adv"; "O2"; "O1"; "P"; "O3"; "Verb"]).
    + apply (index_of_indexOf "P" ["Adv"; "O2"; "O1"; "P"; "O3"; "Verb"]).
    + apply (index_of_indexOf "O3" ["Adv"; "O2"; "O1"; "P"; "O3"; "Verb"]).
Defined.

(** C5. When at least one of the four markers is contained in no token, and
    the four indices match neither canonical ordering, the flag is false. *)
Theorem outOblique_false_when_marker_absent (infoList : list string)
    (self : Sentence.t) (key : string) (O1 O2 P O3 : Z) :
  Sentence.__init__ infoList = Ok self →
  Policy.index_of "O1" (Sentence.sentenceList self) O1 →
  Policy.index_of "O2" (Sentence.sentenceList self) O2 →
  Policy.index_of "P" (Sentence.sentenceList self) P →
  Policy.index_of "O3" (Sentence.sentenceList self) O3 →
  key ∈ Policy.markers →
  Policy.absent key (Sentence.sentenceList self) →
  ¬ Policy.canonicalA O1 O2 P O3 →
  ¬ Policy.canonicalB O1 O2 P O3 →
  Sentence.outOblique self = false.
Proof.
  intros Hinit H1 H2 HP H3 Hkey Habs HA HB.
  apply index_of_unique in H1 as ->, H2 as ->, HP as ->, H3 as ->.
  apply init_inv in Hinit as (language & inflection & text & _ & _ & _ & ->).
  unfold Sentence.outOblique. simpl in *.
  rewrite classify_decision_policy. unfold Policy.decision_policy.
  rewrite !decide_False; [done | | done | done].
  apply indexOf_absent in Habs. unfold Policy.all_four_present.
  unfold Policy.markers in Hkey.
  rewrite !elem_of_cons, elem_of_nil in Hkey.
  destruct Hkey as [-> | [-> | [-> | [-> | []]]]]; tauto.
Qed.

Lemma outOblique_false_when_marker_absent_witness :
  ∃ self : Sentence.t,
    Sentence.__init__ ["611"; "DEC"; "O3 P O2 Verb"] = Ok self
    ∧ Sentence.outOblique self = false.
Proof.
  eexists. split.
  - vm_compute. reflexivity.
  - apply (outOblique_false_when_marker_absent
             ["611"; "DEC"; "O3 P O2 Verb"] _ "O1" (-1) 2 1 0).
    + reflexivity.
    + apply (index_of_indexOf "O1" ["O3"; "P"; "O2"; "Verb"]).
    + apply (index_of_indexOf "O2" ["O3"; "P"; "O2"; "Verb"]).
    + apply (index_of_indexOf "P" ["O3"; "P"; "O2"; "Verb"]).
    + apply (index_of_indexOf "O3" ["O3"; "P"; "O2"; "Verb"]).
    + unfold Policy.markers. apply list_elem_of_here.
    + apply indexOf_absent. reflexivity.
    + intros [H _]. by apply H.
    + intros [_ [[_ H] _]]. lia.
Defined.

(** C10. With the four indices as [indexString] returns them: if the flag is
    true then every marker is contained in some token and no index is -1; and
    when a marker is absent neither canonical test holds, because a canonical
    test that holds forces all four indices to be non-negative. *)
Theorem outOblique_true_needs_all_markers (infoList : list string)
    (self : Sentence.t) (O1index O2index Pindex O3index : Z) :
  Sentence.__init__ infoList = Ok self →
  Sentence.indexString (Sentence.sentenceList self) "O1" = Ok O1index →
  Sentence.indexString (Sentence.sentenceList self) "O2" = Ok O2index →
  Sentence.indexString (Sentence.sentenceList self) "P" = Ok Pindex →
  Sentence.indexString (Sentence.sentenceList self) "O3" = Ok O3index →
  (Sentence.outOblique self = true →
     Forall (λ key, Policy.present key (Sentence.sentenceList self)) Policy.markers
     ∧ O1index ≠ -1 ∧ O2index ≠ -1 ∧ Pindex ≠ -1 ∧ O3index ≠ -1)
  ∧ (∀ key : string,
       key ∈ Policy.markers →
       Policy.absent key (Sentence.sentenceList self) →
       Sentence.caseA O1index O2index Pindex O3index = false
       ∧ Sentence.caseB O1index O2index Pindex O3index = false)
  ∧ (Sentence.caseA O1index O2index Pindex O3index = true
     ∨ Sentence.caseB O1index O2index Pindex O3index = true →
     0 ≤ O1index ∧ 0 ≤ O2index ∧ 0 ≤ Pindex ∧ 0 ≤ O3index).
Proof.
  intros Hinit H1 H2 HP H3.
  rewrite indexString_indexOf in H1, H2, HP, H3.
  injection H1 as <-. injection H2 as <-. injection HP as <-. injection H3 as <-.
  apply init_inv in Hinit as (language & inflection & text & _ & _ & _ & ->).
  unfold Sentence.outOblique. simpl.
  set (tokens := Sentence.split text).
  pose proof (indexOf_range "O1" tokens) as R1.
  pose proof (indexOf_range "O2" tokens) as R2.
  pose proof (indexOf_range "P" tokens) as RP.
  pose proof (indexOf_range "O3" tokens) as R3.
  assert (Hforced :
    Sentence.caseA (indexOf "O1" tokens) (indexOf "O2" tokens)
      (indexOf "P" tokens) (indexOf "O3" tokens) = true
    ∨ Sentence.caseB (indexOf "O1" tokens) (indexOf "O2" tokens)
        (indexOf "P" tokens) (indexOf "O3" tokens) = true →
    0 ≤ indexOf "O1" tokens ∧ 0 ≤ indexOf "O2" tokens
    ∧ 0 ≤ indexOf "P" tokens ∧ 0 ≤ indexOf "O3" tokens).
  { rewrite caseA_spec, caseB_spec.
    unfold Policy.canonicalA, Policy.canonicalB. lia. }
  split; [| split; [| exact Hforced]].
  - rewrite classify_decision_policy. unfold Policy.decision_policy.
    repeat case_decide; try discriminate. intros _.
    match goal with H : Policy.all_four_present _ _ _ _ |- _ =>
      destruct H as (P1 & P2 & P3 & P4) end.
    split; [| done].
    unfold Policy.markers. repeat constructor; by apply present_indexOf.
  - intros key Hkey Habs. apply indexOf_absent in Habs.
    unfold Policy.markers in Hkey.
    rewrite !elem_of_cons, elem_of_nil in Hkey.
    destruct (Sentence.caseA _ _ _ _) eqn:HA, (Sentence.caseB _ _ _ _) eqn:HB;
      try done; exfalso;
      destruct Hkey as [-> | [-> | [-> | [-> | []]]]]; lia.
Qed.

Lemma outOblique_true_needs_all_markers_witness :
  ∃ self : Sentence.t,
    Sentence.__init__ ["611"; "DEC"; "P O1 O3 Verb O2"] = Ok self
    ∧ Sentence.outOblique self = true
    ∧ Forall (λ key, Policy.present key (Sentence.sentenceList self))
        Policy.markers.
Proof.
  eexists. split; [vm_compute; reflexivity |]. split; [reflexivity |].
  apply (proj1 (outOblique_true_needs_all_markers
                  ["611"; "DEC"; "P O1 O3 Verb O2"] _ 1 4 0 2
                  eq_refl eq_refl eq_refl eq_refl eq_refl)).
  reflexivity.
Defined.

(** ** The trial generator *)

Section TrialGenerator.
Import Trials.
Variable params : ExperimentParameters.

Lemma map_const_seq {A} (x : A) (a k : nat) :
  map (λ _, x) (seq a k) = replicate k x.
Proof. revert a. induction k as [|k IH]; intros a; simpl; [done | by rewrite IH]. Qed.

Lemma enter_noise_no_replication langs lang noises :
  replications params = 0%nat → enter_noise params langs lang noises = None.
Proof.
  unfold replications. intros Hr.
  induction noises as [|noise noises IH]; simpl; [done |]. by rewrite Hr.
Qed.

Lemma enter_noise_cons langs lang noise noises k :
  replications params = S k →
  enter_noise params langs lang (noise :: noises)
  = Some (element params lang noise, Running langs lang noises noise k).
Proof. unfold replications. intros Hr. simpl. by rewrite Hr. Qed.

Lemma enter_lang_no_replication langs :
  replications params = 0%nat → enter_lang params langs = None.
Proof.
  intros Hr. induction langs as [|lang langs IH]; simpl; [done |].
  by rewrite enter_noise_no_replication.
Qed.

Lemma enter_lang_no_noise langs :
  noise_levels params = [] → enter_lang params langs = None.
Proof.
  intros Hn. induction langs as [|lang langs IH]; simpl; [done |].
  by rewrite Hn.
Qed.

Lemma of_noises_no_replication lang noises :
  replications params = 0%nat → of_noises params lang noises = [].
Proof.
  intros Hr. unfold of_noises. rewrite Hr.
  induction noises as [|noise noises IH]; simpl; done.
Qed.

Lemma of_noises_cons lang noise noises :
  of_noises params lang (noise :: noises)
  = replicate (replications params) (element params lang noise)
    ++ of_noises params lang noises.
Proof. unfold of_noises. simpl. by rewrite map_const_seq. Qed.

Lemma of_langs_cons lang langs :
  of_langs params (lang :: langs)
  = of_noises params lang (noise_levels params) ++ of_langs params langs.
Proof. reflexivity. Qed.

Lemma of_langs_no_replication langs :
  replications params = 0%nat → of_langs params langs = [].
Proof.
  intros Hr. induction langs as [|lang langs IH]; [done |].
  by rewrite of_langs_cons, of_noises_no_replication, IH.
Qed.

Lemma of_langs_no_noise langs :
  noise_levels params = [] → of_langs params langs = [].
Proof.
  intros Hn. induction langs as [|lang langs IH]; [done |].
  rewrite of_langs_cons, IH, Hn. done.
Qed.

(** The loop over the noise levels ends without a [yield]: the loop over
    the languages goes on. *)
Lemma yields_noise_end langs lang noises noise :
  resumes params (enter_lang params langs) (of_langs params langs) →
  enter_noise params langs lang noises = None →
  of_noises params lang noises = [] →
  yields params (Running langs lang noises noise 0)
    (of_noises params lang noises ++ of_langs params langs).
Proof.
  intros Hlangs Hnone ->. unfold resumes in Hlangs.
  destruct (enter_lang params langs) as [[t st']|] eqn:Hl.
  - destruct Hlangs as (l' & -> & Hl').
    eapply yields_next; [| exact Hl']. simpl. by rewrite Hnone, Hl.
  - rewrite Hlangs. eapply yields_stop. simpl. by rewrite Hnone, Hl.
Qed.

(** A generator suspended at the [yield] still yields the rest of the
    replications, then the rest of the noise levels, then the rest of the
    languages. *)
Lemma yields_running langs :
  resumes params (enter_lang params langs) (of_langs params langs) →
  ∀ lang noises noise k,
    yields params (Running langs lang noises noise k)
      (replicate k (element params lang noise)
       ++ of_noises params lang noises ++ of_langs params langs).
Proof.
  intros Hlangs lang noises.
  induction noises as [|noise' noises IHnoises]; intros noise k;
    (induction k as [|k IHk];
     [| by eapply yields_next; [reflexivity | exact IHk]]);
    change (replicate 0 (element params lang noise) ++ ?l) with l.
  - by apply yields_noise_end.
  - destruct (replications params) as [|r'] eqn:Hr.
    + apply yields_noise_end; [done | |].
      * by apply enter_noise_no_replication.
      * by apply of_noises_no_replication.
    + rewrite of_noises_cons, Hr.
      change (replicate (S r') ?x) with (x :: replicate r' x).
      rewrite <- !app_comm_cons. eapply yields_next.
      * cbn [next]. by rewrite (enter_noise_cons _ _ _ _ r').
      * rewrite <- app_assoc. apply IHnoises.
Qed.

Lemma enter_lang_cons lang langs :
  enter_lang params (lang :: langs)
  = match enter_noise params langs lang (noise_levels params) with
    | Some r => Some r
    | None => enter_lang params langs
    end.
Proof. reflexivity. Qed.

Lemma resumes_enter_lang langs :
  resumes params (enter_lang params langs) (of_langs params langs).
Proof.
  induction langs as [|lang langs IH]; [done |].
  pose proof (yields_running langs IH) as Hrun.
  rewrite of_langs_cons, enter_lang_cons.
  destruct (replications params) as [|r'] eqn:Hr.
  - rewrite enter_noise_no_replication, enter_lang_no_replication by done.
    rewrite of_noises_no_replication, of_langs_no_replication by done. done.
  - destruct (noise_levels params) as [|n0 ns] eqn:Hn.
    + by simpl.
    + rewrite (enter_noise_cons _ _ _ _ r') by done.
      rewrite of_noises_cons, Hr.
      change (replicate (S r') ?x) with (x :: replicate r' x).
      rewrite <- !app_comm_cons. eexists. split; [done |].
      rewrite <- app_assoc. apply Hrun.
Qed.

(** Pulling from the fresh generator gives the unrolled loops and then
    [StopIteration]. *)
Lemma yields_unrolled : yields params (trials params) (unrolled params).
Proof.
  pose proof (resumes_enter_lang (languages params)) as H.
  unfold trials, unrolled, resumes in *.
  destruct (enter_lang params (languages params)) as [[t st']|] eqn:Hl.
  - destruct H as (l' & -> & Hl'). eapply yields_next; [| exact Hl'].
    simpl. by rewrite Hl.
  - rewrite H. eapply yields_stop. simpl. by rewrite Hl.
Qed.

(** The generator is deterministic: it yields one list only. *)
Lemma yields_unique st l1 l2 :
  yields params st l1 → yields params st l2 → l1 = l2.
Proof.
  intros H1. revert l2. induction H1 as [st st' Hn | st t st' l Hn _ IH];
    intros l2 H2; destruct H2 as [st0 st0' Hn2 | st0 t2 st2 l2 Hn2 H2];
    rewrite Hn in Hn2; try discriminate; [done |].
  injection Hn2 as <- <-. f_equal. by apply IH.
Qed.

(** Pulling [fuel] elements computes the first [fuel] elements and no more. *)
Lemma take_yields st l fuel :
  yields params st l → take params fuel st = firstn fuel l.
Proof.
  intros H. revert fuel. induction H as [st st' Hn | st t st' l Hn _ IH];
    intros [|fuel]; simpl; try done.
  - by rewrite Hn.
  - by rewrite Hn, IH.
Qed.

Lemma length_of_noises lang noises :
  length (of_noises params lang noises)
  = (length noises * replications params)%nat.
Proof.
  induction noises as [|noise noises IH]; [done |].
  rewrite of_noises_cons, length_app, length_replicate, IH. simpl. lia.
Qed.

Lemma length_of_langs langs :
  length (of_langs params langs)
  = (length langs * length (noise_levels params) * replications params)%nat.
Proof.
  induction langs as [|lang langs IH]; [done |].
  rewrite of_langs_cons, length_app, length_of_noises, IH. simpl. lia.
Qed.

End TrialGenerator.

Section Combinations.
Import Trials.

Lemma Forall2_flat_map {A B C D} (P : A → B → Prop) (R : C → D → Prop)
    (f : A → list C) (g : B → list D) xs ys :
  Forall2 P xs ys →
  (∀ x y, P x y → Forall2 R (f x) (g y)) →
  Forall2 R (flat_map f xs) (flat_map g ys).
Proof.
  intros HP Hfg. induction HP as [|x y xs ys Hxy _ IH]; simpl; [constructor |].
  apply Forall2_app; [by apply Hfg | exact IH].
Qed.

(** A list against its positions. *)
Lemma Forall2_positions {A} (pre l : list A) :
  Forall2 (λ x i, (pre ++ l) !! i = Some x) l (seq (length pre) (length l)).
Proof.
  revert pre. induction l as [|x l IH]; intros pre; simpl; constructor.
  - by rewrite list_lookup_middle.
  - specialize (IH (pre ++ [x])). rewrite <- app_assoc, length_app in IH.
    simpl in IH. by rewrite Nat.add_1_r in IH.
Qed.

(** Sortedness of nested loops over ranges: each range value contributes a
    sorted block, and the blocks come in the order of the range. *)
Lemma StronglySorted_flat_map_seq {B} (R : relation B) (f : nat → list B) :
  (∀ a, StronglySorted R (f a)) →
  (∀ a a' x y, (a < a')%nat → x ∈ f a → y ∈ f a' → R x y) →
  ∀ a0 k, StronglySorted R (flat_map f (seq a0 k)).
Proof.
  intros Hblock Hacross a0 k. revert a0.
  induction k as [|k IH]; intros a0; simpl; [constructor |].
  apply StronglySorted_app_2; [| done | done].
  intros x y Hx Hy. apply list_elem_of_In, in_flat_map in Hy as (a' & Ha' & Hy).
  apply in_seq in Ha'. apply (Hacross a0 a'); [lia | done |].
  by apply list_elem_of_In.
Qed.

Lemma elem_of_combinations g n r a b c :
  (a, b, c) ∈ combinations g n r ↔ (a < g ∧ b < n ∧ c < r)%nat.
Proof.
  unfold combinations. rewrite list_elem_of_In, in_flat_map. split.
  - intros (a' & Ha' & Hin). apply in_flat_map in Hin as (b' & Hb' & Hin).
    apply in_map_iff in Hin as (c' & [= <- <- <-] & Hc').
    apply in_seq in Ha', Hb', Hc'. lia.
  - intros (Ha & Hb & Hc). exists a. split; [apply in_seq; lia |].
    apply in_flat_map. exists b. split; [apply in_seq; lia |].
    apply in_map_iff. exists c. split; [done | apply in_seq; lia].
Qed.

Lemma combinations_sorted g n r : StronglySorted nested_lt (combinations g n r).
Proof.
  unfold combinations. apply StronglySorted_flat_map_seq.
  - intros a. apply StronglySorted_flat_map_seq.
    + intros b. generalize 0%nat. induction r as [|r IH]; intros c0; simpl;
        constructor; [apply IH |].
      apply Forall_forall. intros y Hy.
      apply list_elem_of_In, in_map_iff in Hy as (c & <- & Hc).
      apply in_seq in Hc. unfold nested_lt. simpl. lia.
    + intros b b' x y Hlt Hx Hy.
      apply list_elem_of_In, in_map_iff in Hx as (c & <- & _).
      apply list_elem_of_In, in_map_iff in Hy as (c' & <- & _).
      unfold nested_lt. simpl. lia.
  - intros a a' x y Hlt Hx Hy.
    apply list_elem_of_In, in_flat_map in Hx as (b & _ & Hx).
    apply in_map_iff in Hx as (c & <- & _).
    apply list_elem_of_In, in_flat_map in Hy as (b' & _ & Hy).
    apply in_map_iff in Hy as (c' & <- & _).
    unfold nested_lt. simpl. lia.
Qed.

Lemma StronglySorted_NoDup {A} (R : relation A) (l : list A) :
  (∀ x, ¬ R x x) → StronglySorted R l → NoDup l.
Proof.
  intros Hirr. induction 1 as [|x l _ IH Hall]; constructor; [| done].
  intros Hx. rewrite Forall_forall in Hall. by apply (Hirr x), Hall.
Qed.

Lemma combinations_NoDup g n r : NoDup (combinations g n r).
Proof.
  apply (StronglySorted_NoDup nested_lt); [| apply combinations_sorted].
  intros x. unfold nested_lt. lia.
Qed.

Lemma unrolled_carries params :
  Forall2 (carries params) (unrolled params)
    (combinations (length (languages params)) (length (noise_levels params))
       (replications params)).
Proof.
  unfold unrolled, of_langs, of_noises, combinations.
  eapply Forall2_flat_map; [apply (Forall2_positions [] (languages params)) |].
  intros lang a Ha.
  eapply Forall2_flat_map; [apply (Forall2_positions [] (noise_levels params)) |].
  intros noise b Hb. simpl in Ha, Hb.
  generalize 0%nat. induction (replications params) as [|r IH]; intros c0; simpl;
    constructor; [| apply IH].
  by unfold carries.
Qed.

End Combinations.

(** C3. With g target grammars, n noise levels and r replications (the
    number of values of the range over [num_echildren]), the generator yields,
    one element per pull and then [StopIteration], exactly g*n*r trials.
    They correspond position by position to the (grammar, noise,
    replication-index) combinations enumerated with the grammars outermost
    and the replications innermost, in which every combination occurs exactly
    once; each trial carries the experiment's learning rate, conservative
    rate and sentence count.  When [num_echildren] is not negative the count
    is the [num_trials] that [run_simulations] computes. *)
Theorem trials_enumerate_cross_product (params : ExperimentParameters) :
  Trials.yields params (Trials.trials params) (Trials.unrolled params)
  ∧ (∀ l, Trials.yields params (Trials.trials params) l →
          l = Trials.unrolled params)
  ∧ (∀ fuel : nat,
       Trials.take params fuel (Trials.trials params)
       = firstn fuel (Trials.unrolled params))
  ∧ length (Trials.unrolled params)
    = (length (languages params) * length (noise_levels params)
       * Trials.replications params)%nat
  ∧ Forall2 (Trials.carries params) (Trials.unrolled params)
      (Trials.combinations (length (languages params))
         (length (noise_levels params)) (Trials.replications params))
  ∧ StronglySorted Trials.nested_lt
      (Trials.combinations (length (languages params))
         (length (noise_levels params)) (Trials.replications params))
  ∧ NoDup
      (Trials.combinations (length (languages params))
         (length (noise_levels params)) (Trials.replications params))
  ∧ (∀ a b c : nat,
       (a, b, c) ∈ Trials.combinations (length (languages params))
                     (length (noise_levels params)) (Trials.replications params)
       ↔ (a < length (languages params) ∧ b < length (noise_levels params)
          ∧ c < Trials.replications params)%nat)
  ∧ (0 ≤ num_echildren params →
     Z.of_nat (length (Trials.unrolled params)) = Trials.num_trials params).
Proof.
  pose proof (yields_unrolled params) as Hy.
  assert (Hlen : length (Trials.unrolled params)
    = (length (languages params) * length (noise_levels params)
       * Trials.replications params)%nat) by apply length_of_langs.
  split_and!.
  - exact Hy.
  - intros l Hl. by apply (yields_unique params (Trials.trials params)).
  - intros fuel. by apply take_yields.
  - exact Hlen.
  - apply unrolled_carries.
  - apply combinations_sorted.
  - apply combinations_NoDup.
  - intros a b c. apply elem_of_combinations.
  - intros Hr. rewrite Hlen. unfold Trials.num_trials, Trials.replications. lia.
Qed.

Lemma trials_enumerate_cross_product_witness :
  Z.of_nat
    (length
       (Trials.unrolled
          {| languages := [Language.English];
             noise_levels := [Finite 0];
             learningrate := ExperimentDefaults.rate;
             conservative_learningrate := ExperimentDefaults.conservativerate;
             num_sentences := 10;
             num_echildren := 3;
             num_procs := 2 |}))
  = 3.
Proof.
  apply (trials_enumerate_cross_product
           {| languages := [Language.English];
              noise_levels := [Finite 0];
              learningrate := ExperimentDefaults.rate;
              conservative_learningrate := ExperimentDefaults.conservativerate;
              num_sentences := 10;
              num_echildren := 3;
              num_procs := 2 |}).
  simpl. lia.
Defined.

(** ** One trial *)

Section Trial.
Context {Ext Child : Type}.
Context `{!Runtime Ext, !ColagDomain Ext, !NDChild Ext Child}.

(** One iteration of the loop of [run_child], written out. *)
Lemma run_child_loop_step language noise n aChild w :
  run_child_loop language noise (S n) aChild w
  = let (u, e1) := random (ext w) in
    let not_in := num_lt (Finite u) noise in
    let (rs, e2) :=
      (if not_in then get_sentence_not_in_language language
       else get_sentence_in_language language) e1 in
    let tr1 := trace w ++ [Sampled not_in language (error_of rs)] in
    match rs with
    | Raise err => (Raise err, {| ext := e2; trace := tr1 |})
    | Ok s =>
        let (rc, e3) := consumeSentence aChild s e2 in
        let tr2 := tr1 ++ [Consumed (error_of rc)] in
        match rc with
        | Raise err => (Raise err, {| ext := e3; trace := tr2 |})
        | Ok aChild' =>
            run_child_loop language noise n aChild' {| ext := e3; trace := tr2 |}
        end
    end.
Proof.
  cbn [run_child_loop].
  unfold mbind, M_bind, call, DOMAIN_get_sentence_not_in_language,
    DOMAIN_get_sentence_in_language, aChild_consumeSentence, call_logged.
  destruct (random (ext w)) as [u e1]. cbv beta iota zeta. cbn [ext trace].
  destruct (num_lt (Finite u) noise); cbv beta iota zeta; cbn [ext trace].
  - destruct (get_sentence_not_in_language language e1) as [[s|err] e2];
      cbv beta iota zeta; cbn [ext trace]; [| done].
    destruct (consumeSentence aChild s e2) as [[c|err] e3]; done.
  - destruct (get_sentence_in_language language e1) as [[s|err] e2];
      cbv beta iota zeta; cbn [ext trace]; [| done].
    destruct (consumeSentence aChild s e2) as [[c|err] e3]; done.
Qed.

Lemma calls_app b tr tr' : calls b (tr ++ tr') = (calls b tr + calls b tr')%nat.
Proof.
  induction tr as [|[b' g err|err] tr IH]; simpl; [done | | done].
  rewrite IH. lia.
Qed.

(** When every draw sends the loop down the same path [b], only that path is
    called: once per iteration, as long as no call raises. *)
Lemma run_child_loop_one_path language noise b :
  (∀ e, num_lt (Finite (random e).1) noise = b) →
  ∀ n aChild w,
    calls (negb b) (trace (run_child_loop language noise n aChild w).2)
    = calls (negb b) (trace w)
    ∧ (calls b (trace (run_child_loop language noise n aChild w).2)
       ≤ calls b (trace w) + n)%nat
    ∧ (∀ c, (run_child_loop language noise n aChild w).1 = Ok c →
            calls b (trace (run_child_loop language noise n aChild w).2)
            = (calls b (trace w) + n)%nat).
Proof.
  intros Hpath n. induction n as [|n IH]; intros aChild w.
  - simpl. split_and!; [done | lia | intros; lia].
  - rewrite run_child_loop_step. specialize (Hpath (ext w)).
    destruct (random (ext w)) as [u e1]. cbn [fst] in Hpath.
    cbv zeta. rewrite Hpath.
    assert (Hother : Bool.eqb b (negb b) = false) by (by destruct b).
    destruct ((if b then get_sentence_not_in_language language
               else get_sentence_in_language language) e1) as [[s|err] e2].
    + destruct (consumeSentence aChild s e2) as [[c|err] e3].
      * specialize (IH c {| ext := e3;
                            trace := (trace w ++ [Sampled b language (error_of (Ok s))])
                                     ++ [Consumed (error_of (Ok c))] |}).
        destruct IH as (IH1 & IH2 & IH3). cbn [trace] in IH1, IH2, IH3.
        rewrite !calls_app in IH1, IH2, IH3. cbn [calls] in IH1, IH2, IH3.
        rewrite Hother in IH1. rewrite Bool.eqb_reflx in IH2, IH3.
        split_and!; [lia | lia |].
        intros c' Hc'. rewrite (IH3 c' Hc'). lia.
      * cbn [fst snd trace]. rewrite !calls_app. cbn [calls].
        rewrite Hother, Bool.eqb_reflx. split_and!; [lia | lia | done].
    + cbn [fst snd trace]. rewrite !calls_app. cbn [calls].
      rewrite Hother, Bool.eqb_reflx. split_and!; [lia | lia | done].
Qed.

Lemma run_child_loop_fail_fast language noise n :
  ∀ aChild w,
    ∃ evs,
      trace (run_child_loop language noise n aChild w).2 = trace w ++ evs
      ∧ fail_fast language (run_child_loop language noise n aChild w).1 evs.
Proof.
  induction n as [|n IH]; intros aChild w.
  - exists []. simpl. rewrite app_nil_r. repeat constructor.
  - rewrite run_child_loop_step.
    destruct (random (ext w)) as [u e1]. cbv zeta.
    destruct ((if num_lt (Finite u) noise
               then get_sentence_not_in_language language
               else get_sentence_in_language language) e1) as [[s|err] e2].
    + destruct (consumeSentence aChild s e2) as [[c|err] e3].
      * edestruct IH as (evs & Htr & Hsame & Hr). rewrite Htr. cbn [trace].
        eexists. split; [by rewrite <- !app_assoc |]. split.
        -- repeat constructor. exact Hsame.
        -- destruct (run_child_loop language noise n c _).1 as [c'|err].
           ++ repeat constructor. exact Hr.
           ++ destruct Hr as (evs0 & ev & -> & Hret & Hev).
              exists (Sampled (num_lt (Finite u) noise) language None
                      :: Consumed None :: evs0), ev.
              split; [done |]. split; [| done]. repeat constructor. exact Hret.
      * cbn [fst snd trace]. eexists. split; [by rewrite <- !app_assoc |].
        split; [repeat constructor |].
        exists [Sampled (num_lt (Finite u) noise) language None], (Consumed (Some err)).
        split; [done |]. split; [| done]. repeat constructor.
    + cbn [fst snd trace]. eexists. split; [done |].
      split; [repeat constructor |].
      exists [], (Sampled (num_lt (Finite u) noise) language (Some err)).
      split; [done |]. split; [constructor | done].
Qed.




(** [run_trial] around [run_child]. *)
Lemma run_trial_unfold params w :
  run_trial params w
  = let (then_, e0) := now (ext w) in
    let rw := run_child (language params) (noise params) (rate params)
                (conservativerate params) (numberofsentences params)
                {| ext := e0; trace := trace w |} in
    match rw.1 with
    | Raise err => (Raise err, rw.2)
    | Ok child =>
        let (now_, e1) := now (ext rw.2) in
        (Ok (results_dict params child then_ now_),
         {| ext := e1; trace := trace rw.2 |})
    end.
Proof.
  unfold run_trial, mbind, M_bind, call, mret, M_ret.
  destruct (now (ext w)) as [then_ e0]. cbv zeta.
  destruct (run_child _ _ _ _ _ _) as [[child|err] w1]; cbn [fst snd]; [| done].
  by destruct (now (ext w1)) as [now_ e1].
Qed.

(** [run_trial] raises what [run_child] raises and adds no call. *)
Lemma run_trial_of_run_child params e :
  ∃ e0,
    trace (run (run_trial params) e).2
    = trace (run (run_child (language params) (noise params) (rate params)
                    (conservativerate params) (numberofsentences params)) e0).2
    ∧ error_of (run (run_trial params) e).1
      = error_of (run (run_child (language params) (noise params) (rate params)
                         (conservativerate params) (numberofsentences params))
                    e0).1.
Proof.
  unfold run. rewrite run_trial_unfold. cbn [ext trace].
  destruct (now e) as [then_ e0]. exists e0. cbv zeta.
  destruct (run_child _ _ _ _ _ _) as [[child|err] w1]; cbn [fst snd]; [| done].
  by destruct (now (ext w1)) as [now_ e1].
Qed.

(** C9. A sampling call that raises ends the trial: [run_trial] raises the
    same exception, the failing call asked for the trial's grammar and is the
    last call of the trial, and every call before it returned normally, so
    nothing is retried and no result is returned.  In particular, in a trial
    of at least one sentence whose grammar the domain rejects, the first
    sampling call is the only call and its exception is the outcome. *)
Theorem sampling_error_aborts_the_trial (params : TrialParameters) (e : Ext) :
  (∀ (not_in : bool) (grammar_id : Z) (err : exn),
     Sampled not_in grammar_id (Some err) ∈ trace (run (run_trial params) e).2 →
     (run (run_trial params) e).1 = Raise err
     ∧ grammar_id = language params
     ∧ ∃ before,
         trace (run (run_trial params) e).2
         = before ++ [Sampled not_in grammar_id (Some err)]
         ∧ Forall returned before)
  ∧ (∀ err : exn,
       rejects (language params) err →
       0 < numberofsentences params →
       (run (run_trial params) e).1 = Raise err
       ∧ ∃ not_in,
           trace (run (run_trial params) e).2
           = [Sampled not_in (language params) (Some err)]).
Proof.
  destruct (run_trial_of_run_child params e) as (e0 & Htrace & Herror).
  rewrite Htrace. clear Htrace.
  generalize dependent (run (run_trial params) e).1. intros outcome Herror.
  split.
  - intros not_in grammar_id err Hin.
    unfold run, run_child in Hin, Herror |- *.
    destruct (run_child_loop_fail_fast (language params) (noise params)
                (Z.to_nat (numberofsentences params))
                (InstrumentedNDChild (rate params) (conservativerate params)
                   (language params))
                {| ext := e0; trace := [] |}) as (evs & Hevs & Hsame & Hr).
    rewrite Hevs in Hin |- *. cbn [trace app] in Hin |- *.
    destruct (run_child_loop _ _ _ _ _).1 as [child|err'].
    + rewrite Forall_forall in Hr. by specialize (Hr _ Hin).
    + destruct Hr as (evs0 & ev & -> & Hret & Hev).
      rewrite Forall_forall in Hsame. pose proof (Hsame _ Hin) as Hg.
      apply elem_of_app in Hin as [Hin | Hin].
      * rewrite Forall_forall in Hret. by specialize (Hret _ Hin).
      * apply list_elem_of_singleton in Hin as <-. simpl in Hev, Hg.
        injection Hev as ->.
        destruct outcome as [results|err'']; [done |].
        injection Herror as ->. split_and!; [done | done |]. by exists evs0.
  - intros err Hrejects Hk.
    unfold run, run_child in Herror |- *.
    destruct (Z.to_nat (numberofsentences params)) as [|n] eqn:Hn; [lia |].
    rewrite run_child_loop_step in Herror |- *. cbn [ext trace] in Herror |- *.
    destruct (random e0) as [u e1]. cbv zeta in Herror |- *.
    destruct (Hrejects e1) as [Hin Hnot].
    destruct (num_lt (Finite u) (noise params)).
    + destruct (get_sentence_not_in_language (language params) e1) as [rs e2].
      cbn [fst] in Hnot. subst rs. cbn [fst snd trace error_of app] in Herror |- *.
      destruct outcome as [results|err'']; [done |].
      injection Herror as ->. split; [done | by exists true].
    + destruct (get_sentence_in_language (language params) e1) as [rs e2].
      cbn [fst] in Hin. subst rs. cbn [fst snd trace error_of app] in Herror |- *.
      destruct outcome as [results|err'']; [done |].
      injection Herror as ->. split; [done | by exists false].
Qed.

(** The fields of [params], unpacked last, are always in the record. *)
Lemma results_dict_params params child then_ now_ :
  results_dict params child then_ now_ !! "language"
  = Some (VInt (language params))
  ∧ results_dict params child then_ now_ !! "noise" = Some (VNum (noise params))
  ∧ results_dict params child then_ now_ !! "rate" = Some (VNum (rate params))
  ∧ results_dict params child then_ now_ !! "conservativerate"
    = Some (VNum (conservativerate params))
  ∧ results_dict params child then_ now_ !! "numberofsentences"
    = Some (VInt (numberofsentences params)).
Proof.
  unfold results_dict, dict_update.
  split_and!; apply lookup_union_Some_l; reflexivity.
Qed.


(** A result is the dictionary display on the child that [run_child]
    returned. *)
Lemma run_trial_result params e results :
  (run (run_trial params) e).1 = Ok results →
  ∃ e0 child then_ now_,
    (run (run_child (language params) (noise params) (rate params)
            (conservativerate params) (numberofsentences params)) e0).1
    = Ok child
    ∧ results = results_dict params child then_ now_.
Proof.
  unfold run. rewrite run_trial_unfold. cbn [ext trace].
  destruct (now e) as [then_ e0]. cbv zeta.
  destruct (run_child _ _ _ _ _ _) as [[child|err] w1] eqn:Hchild;
    cbn [fst snd]; [| done].
  destruct (now (ext w1)) as [now_ e1]. intros [= <-].
  exists e0, child, then_, now_. by rewrite Hchild.
Qed.

(** Whatever the learner resolved, the entry ["language"] of a result is the
    language of the trial's parameters. *)
Lemma run_trial_language params e results :
  (run (run_trial params) e).1 = Ok results →
  results !! "language" = Some (VInt (language params)).
Proof.
  intros Hr. apply run_trial_result in Hr as (e0 & child & t0 & t1 & _ & ->).
  apply results_dict_params.
Qed.

End Trial.


Lemma sampling_error_aborts_the_trial_witness :
  (run
     (@run_trial nat StandIn.child (StandIn.runtime (1 # 2)) StandIn.domain
        (StandIn.learner id)
        {| language := 999;
           noise := Finite 0;
           rate := ExperimentDefaults.rate;
           conservativerate := ExperimentDefaults.conservativerate;
           numberofsentences := 10 |})
     0%nat).1
  = Raise (LanguageNotFound 999)
  ∧ ∃ not_in,
      trace
        (run
           (@run_trial nat StandIn.child (StandIn.runtime (1 # 2))
              StandIn.domain (StandIn.learner id)
              {| language := 999;
                 noise := Finite 0;
                 rate := ExperimentDefaults.rate;
                 conservativerate := ExperimentDefaults.conservativerate;
                 numberofsentences := 10 |})
           0%nat).2
      = [Sampled not_in 999 (Some (LanguageNotFound 999))].
Proof.
  split.
  - apply (proj1 (@sampling_error_aborts_the_trial nat StandIn.child
                    (StandIn.runtime (1 # 2)) StandIn.domain
                    (StandIn.learner id)
                    {| language := 999;
                       noise := Finite 0;
                       rate := ExperimentDefaults.rate;
                       conservativerate := ExperimentDefaults.conservativerate;
                       numberofsentences := 10 |}
                    0%nat) false 999 (LanguageNotFound 999)).
    vm_compute. apply list_elem_of_here.
  - apply (proj2 (@sampling_error_aborts_the_trial nat StandIn.child
                    (StandIn.runtime (1 # 2)) StandIn.domain
                    (StandIn.learner id)
                    {| language := 999;
                       noise := Finite 0;
                       rate := ExperimentDefaults.rate;
                       conservativerate := ExperimentDefaults.conservativerate;
                       numberofsentences := 10 |}
                    0%nat) (LanguageNotFound 999)).
    + intros e'. split; reflexivity.
    + simpl. lia.
Defined.


(** ** The command line *)

Section CommandLineProps.
Variable float : string → option number.
Variable int : string → option Z.
Variable cpu_count : Z.






Lemma convert_all_Ok {A} (type : string → option A) args l :
  convert_all type args = Ok l ↔ Forall2 (λ s x, type s = Some x) args l.
Proof.
  revert l. induction args as [|arg args IH]; intros l; simpl.
  - split; [intros [= <-]; constructor | by inversion 1].
  - unfold convert. destruct (type arg) as [a|] eqn:Ha; simpl.
    + destruct (convert_all type args) as [l'|e]; simpl.
      * split.
        -- intros [= <-]. constructor; [done | by apply IH].
        -- inversion 1 as [|? x ? l'' Hx Hl]; subst.
           apply IH in Hl as [= <-]. congruence.
      * split; [done |]. inversion 1 as [|? x ? l'' Hx Hl]; subst.
        by apply IH in Hl.
    + split; [done |]. inversion 1; congruence.
Qed.



End CommandLineProps.



(** * Further properties *)

(** ** The tokens of a sentence *)

Section Tokens.
Import Sentence Text.

Lemma has_space_app a b : has_space (a +:+ b) = has_space a || has_space b.
Proof.
  induction a as [|c a IH]; simpl; [done |]. by rewrite IH, orb_assoc.
Qed.

Lemma join_flush cur acc : join (flush cur acc) = cur +:+ join acc.
Proof. by destruct cur. Qed.

Lemma string_append_assoc (a b c : string) :
  (a +:+ b) +:+ c = a +:+ (b +:+ c).
Proof.
  induction a as [|x a IH]; [done |].
  change (String x ((a +:+ b) +:+ c) = String x (a +:+ (b +:+ c))).
  by rewrite IH.
Qed.

Lemma split_from_join cur s : join (split_from cur s) = cur +:+ strip s.
Proof.
  revert cur. induction s as [|c s IH]; intros cur; simpl.
  - by rewrite join_flush.
  - destruct (isspace c).
    + by rewrite join_flush, IH.
    + by rewrite IH, string_append_assoc.
Qed.

Lemma split_from_tokens cur s :
  has_space cur = false →
  Forall (λ w, w ≠ EmptyString ∧ has_space w = false) (split_from cur s).
Proof.
  revert cur. induction s as [|c s IH]; intros cur Hcur; simpl.
  - destruct cur; simpl; [constructor | by repeat constructor].
  - destruct (isspace c) eqn:Hc.
    + destruct cur; simpl; [by apply IH |].
      constructor; [done | by apply IH].
    + apply IH. rewrite has_space_app. simpl. by rewrite Hcur, Hc.
Qed.

Lemma join_nil_inv tokens :
  Forall (λ w, w ≠ EmptyString ∧ has_space w = false) tokens →
  join tokens = EmptyString → tokens = [].
Proof.
  destruct 1 as [|w tokens [Hw _] _]; [done |]. simpl.
  destruct w; [done | discriminate].
Qed.

(** The flag of a constructed sentence, from its token list alone. *)
Lemma flag_of_tokens infoList self :
  __init__ infoList = Ok self →
  outOblique self
  = classify (indexOf "O1" (sentenceList self)) (indexOf "O2" (sentenceList self))
      (indexOf "P" (sentenceList self)) (indexOf "O3" (sentenceList self))
  ∧ sentenceList self = split (sentenceStr self).
Proof.
  intros Hinit.
  by apply init_inv in Hinit as (language & inflection & text & _ & _ & _ & ->).
Qed.

Lemma indexOf_from_shift key tokens (i : Z) :
  0 ≤ i →
  indexOf_from key tokens i
  = if indexOf_from key tokens 0 =? -1 then -1 else indexOf_from key tokens 0 + i.
Proof.
  revert i. induction tokens as [|w tokens IH]; intros i Hi; simpl; [done |].
  destruct (contains key w); [done |].
  rewrite (IH (i + 1)), (IH (0 + 1)) by lia.
  destruct (indexOf_from_range key tokens 0) as [Hr|Hr].
  - by rewrite Hr.
  - destruct (Z.eqb_spec (indexOf_from key tokens 0) (-1)); [lia |].
    destruct (Z.eqb_spec (indexOf_from key tokens 0 + (0 + 1)) (-1)); lia.
Qed.

Lemma indexOf_from_app_found key l1 l2 (i : Z) :
  0 ≤ i →
  indexOf_from key l1 i ≠ -1 →
  indexOf_from key (l1 ++ l2) i = indexOf_from key l1 i.
Proof.
  revert i. induction l1 as [|w l1 IH]; intros i Hi; simpl; [done |].
  destruct (contains key w); [done |]. apply IH. lia.
Qed.

Lemma is_substring_trans key key' w :
  Policy.is_substring key key' → Policy.is_substring key' w →
  Policy.is_substring key w.
Proof.
  intros (a & b & ->) (p & q & ->). exists (p +:+ a), (b +:+ q).
  by rewrite !string_append_assoc.
Qed.

Lemma split_nil s : split s = [] ↔ strip s = EmptyString.
Proof.
  pose proof (split_from_join EmptyString s) as Hjoin.
  change (join (split s) = strip s) in Hjoin. split.
  - intros Hnil. by rewrite <- Hjoin, Hnil.
  - intros Hstrip. apply join_nil_inv; [| by rewrite Hjoin].
    by apply split_from_tokens.
Qed.

End Tokens.

(** X1. The tokens of a constructed sentence are not empty and hold no
    whitespace character. *)
Theorem sentenceList_tokens_are_words (infoList : list string)
    (self : Sentence.t) :
  Sentence.__init__ infoList = Ok self →
  Forall (λ w, w ≠ EmptyString ∧ Text.has_space w = false)
    (Sentence.sentenceList self).
Proof.
  intros Hinit. apply flag_of_tokens in Hinit as [_ ->].
  by apply split_from_tokens.
Qed.

Lemma sentenceList_tokens_are_words_witness :
  ∃ self : Sentence.t,
    Sentence.__init__ ["611"; "DEC"; " S  Aux Verb O1 "] = Ok self
    ∧ Forall (λ w, w ≠ EmptyString ∧ Text.has_space w = false)
        (Sentence.sentenceList self).
Proof.
  eexists. split; [vm_compute; reflexivity |].
  apply (sentenceList_tokens_are_words ["611"; "DEC"; " S  Aux Verb O1 "]).
  reflexivity.
Defined.

(** X2. Tokenizing loses nothing but whitespace: the tokens written one after
    the other are the sentence string without its whitespace characters; and
    the token list is empty exactly when the sentence string holds nothing
    but whitespace. *)
Theorem sentenceList_keeps_the_text (infoList : list string)
    (self : Sentence.t) :
  Sentence.__init__ infoList = Ok self →
  Text.join (Sentence.sentenceList self) = Text.strip (Sentence.sentenceStr self)
  ∧ (Sentence.sentenceList self = []
     ↔ Text.strip (Sentence.sentenceStr self) = EmptyString).
Proof.
  intros Hinit. apply flag_of_tokens in Hinit as [_ Hsplit].
  assert (Hjoin : Text.join (Sentence.sentenceList self)
                  = Text.strip (Sentence.sentenceStr self)).
  { rewrite Hsplit. apply (split_from_join EmptyString). }
  split; [done |]. split.
  - intros Hnil. by rewrite <- Hjoin, Hnil.
  - intros Hstrip. apply join_nil_inv; [| by rewrite Hjoin].
    rewrite Hsplit. by apply split_from_tokens.
Qed.

Lemma sentenceList_keeps_the_text_witness :
  ∃ self : Sentence.t,
    Sentence.__init__ ["611"; "DEC"; " S  Aux Verb O1 "] = Ok self
    ∧ Text.join (Sentence.sentenceList self) = "SAuxVerbO1".
Proof.
  eexists. split; [vm_compute; reflexivity |].
  apply (sentenceList_keeps_the_text ["611"; "DEC"; " S  Aux Verb O1 "]).
  reflexivity.
Defined.

(** X3. The constructor raises exactly on a list of fewer than three
    elements, and then [IndexError]; otherwise it returns a sentence whose
    language, inflection and sentence string are the first three elements,
    whatever follows them, with no triggers. *)
Theorem init_raises_only_IndexError (infoList : list string) :
  match Sentence.__init__ infoList with
  | Ok self =>
      (3 ≤ length infoList)%nat
      ∧ infoList !! 0%nat = Some (Sentence.language self)
      ∧ infoList !! 1%nat = Some (Sentence.inflection self)
      ∧ infoList !! 2%nat = Some (Sentence.sentenceStr self)
      ∧ Sentence.triggers self = ∅
  | Raise err => (length infoList < 3)%nat ∧ err = IndexError
  end.
Proof.
  destruct infoList as [|language [|inflection [|text rest]]];
    try (split; [simpl; lia | done]).
  destruct (init_total language inflection text rest) as [self Hself].
  rewrite Hself.
  apply init_inv in Hself as (l & i & t & [= <-] & [= <-] & [= <-] & ->).
  simpl. split_and!; [lia | done..].
Qed.

(** X4. The empty key is contained in every token: looking it up gives 0 on
    a list with a token and -1 on the empty list. *)
Theorem indexString_empty_key (tokens : list string) :
  Sentence.indexString tokens EmptyString
  = Ok (match tokens with [] => -1 | _ :: _ => 0 end).
Proof.
  rewrite indexString_indexOf. destruct tokens as [|w tokens]; [done |].
  unfold indexOf. simpl. by destruct w.
Qed.

(** X5. Looking a key up in two token lists put end to end: the index in the
    first list when it has one, else the index in the second list moved by
    the length of the first, else -1. *)
Theorem indexString_app (l1 l2 : list string) (key : string) :
  ∃ i1 i2 : Z,
    Sentence.indexString l1 key = Ok i1
    ∧ Sentence.indexString l2 key = Ok i2
    ∧ Sentence.indexString (l1 ++ l2) key
      = Ok (if i1 =? -1
            then if i2 =? -1 then -1 else Z.of_nat (length l1) + i2
            else i1).
Proof.
  exists (indexOf key l1), (indexOf key l2).
  rewrite !indexString_indexOf. split_and!; [done | done |]. f_equal.
  destruct (Z.eqb_spec (indexOf key l1) (-1)) as [Hnone|Hsome].
  - apply indexOf_absent in Hnone. unfold indexOf at 1.
    rewrite indexOf_from_app.
    + rewrite indexOf_from_shift by lia. fold (indexOf key l2).
      destruct (indexOf key l2 =? -1); lia.
    + eapply Forall_impl; [exact Hnone |]. intros w Hw. simpl in Hw.
      destruct (Sentence.contains key w) eqn:Hc; [| done].
      by apply contains_spec in Hc.
  - by apply indexOf_from_app_found.
Qed.

(** X6. A key contained in another key is found no later: when the longer
    key has an index, the shorter one has an index too, and it is not
    greater. *)
Theorem indexString_shorter_key_no_later (tokens : list string)
    (key key' : string) (i' : Z) :
  Policy.is_substring key key' →
  Sentence.indexString tokens key' = Ok i' →
  i' ≠ -1 →
  ∃ i : Z, Sentence.indexString tokens key = Ok i ∧ 0 ≤ i ≤ i'.
Proof.
  intros Hsub Hi' Hfound. rewrite indexString_indexOf in Hi'.
  injection Hi' as <-. exists (indexOf key tokens).
  split; [apply indexString_indexOf |].
  destruct (index_of_indexOf key' tokens)
    as [[_ Hnone] | (n' & (w' & Hlook' & Hw' & _) & Hn')]; [done |].
  rewrite Hn'.
  destruct (index_of_indexOf key tokens)
    as [[Habs _] | (n & (w & Hlook & Hw & Hbefore) & Hn)].
  - exfalso. unfold Policy.absent in Habs. rewrite Forall_forall in Habs.
    apply (Habs w'); [by eapply list_elem_of_lookup_2 |].
    exact (is_substring_trans _ _ _ Hsub Hw').
  - rewrite Hn. split; [lia |].
    destruct (decide (n ≤ n')%nat) as [|Hgt]; [lia |].
    exfalso. apply (Hbefore n' w'); [lia | done |].
    exact (is_substring_trans _ _ _ Hsub Hw').
Qed.

Lemma indexString_shorter_key_no_later_witness :
  ∃ i : Z, Sentence.indexString ["Adv"; "O2"; "O1"] "O" = Ok i ∧ 0 ≤ i ≤ 2.
Proof.
  apply (indexString_shorter_key_no_later ["Adv"; "O2"; "O1"] "O" "O1" 2).
  - exists EmptyString, "1". reflexivity.
  - reflexivity.
  - lia.
Defined.

(** X7. Two markers first found in the same token, other than O2 with P, match
    neither canonical test: the flag is then true exactly when all four
    markers are present. *)
Theorem tied_markers_are_not_canonical (infoList : list string)
    (self : Sentence.t) (O1index O2index Pindex O3index : Z) :
  Sentence.__init__ infoList = Ok self →
  Sentence.indexString (Sentence.sentenceList self) "O1" = Ok O1index →
  Sentence.indexString (Sentence.sentenceList self) "O2" = Ok O2index →
  Sentence.indexString (Sentence.sentenceList self) "P" = Ok Pindex →
  Sentence.indexString (Sentence.sentenceList self) "O3" = Ok O3index →
  O1index = O2index ∨ O1index = Pindex ∨ O1index = O3index
  ∨ O2index = O3index ∨ Pindex = O3index →
  Sentence.caseA O1index O2index Pindex O3index = false
  ∧ Sentence.caseB O1index O2index Pindex O3index = false
  ∧ (Sentence.outOblique self = true
     ↔ O1index ≠ -1 ∧ O2index ≠ -1 ∧ Pindex ≠ -1 ∧ O3index ≠ -1).
Proof.
  intros Hinit H1 H2 HP H3 Htie.
  rewrite indexString_indexOf in H1, H2, HP, H3.
  injection H1 as H1. injection H2 as H2. injection HP as HP. injection H3 as H3.
  apply flag_of_tokens in Hinit as [-> _]. rewrite H1, H2, HP, H3.
  assert (HA : Sentence.caseA O1index O2index Pindex O3index = false).
  { apply not_true_is_false. rewrite caseA_spec. unfold Policy.canonicalA. lia. }
  assert (HB : Sentence.caseB O1index O2index Pindex O3index = false).
  { apply not_true_is_false. rewrite caseB_spec. unfold Policy.canonicalB. lia. }
  split_and!; [done | done |].
  unfold Sentence.classify. rewrite HA, HB.
  pose proof (all_present_spec O1index O2index Pindex O3index) as Hall.
  unfold Policy.all_four_present in Hall.
  destruct (Sentence.all_present O1index O2index Pindex O3index); [done |].
  rewrite <- Hall. done.
Qed.

Lemma tied_markers_are_not_canonical_witness :
  ∃ self : Sentence.t,
    Sentence.__init__ ["611"; "DEC"; "O1O2 P O3 Verb"] = Ok self
    ∧ Sentence.outOblique self = true.
Proof.
  eexists. split; [vm_compute; reflexivity |].
  apply (tied_markers_are_not_canonical ["611"; "DEC"; "O1O2 P O3 Verb"] _
           0 0 1 2 eq_refl eq_refl eq_refl eq_refl eq_refl).
  - by left.
  - lia.
Defined.

(** The tie of O2 with P is the one that a canonical order admits. *)
Example tie_of_O2_with_P_is_canonical :
  Sentence.outOblique <$> Sentence.__init__ ["611"; "DEC"; "O3 PO2 O1 Verb"]
  = Ok false.
Proof. reflexivity. Qed.

(** X8. A sentence string that holds nothing but whitespace has no token:
    every lookup returns -1 and the flag is false. *)
Theorem blank_sentence_is_not_oblique (infoList : list string)
    (self : Sentence.t) :
  Sentence.__init__ infoList = Ok self →
  Text.strip (Sentence.sentenceStr self) = EmptyString →
  Sentence.sentenceList self = []
  ∧ (∀ key : string,
       Sentence.indexString (Sentence.sentenceList self) key = Ok (-1))
  ∧ Sentence.outOblique self = false.
Proof.
  intros Hinit Hblank. apply flag_of_tokens in Hinit as [Hflag Hsplit].
  apply split_nil in Hblank. rewrite <- Hsplit in Hblank.
  rewrite Hflag, Hblank. done.
Qed.

Lemma blank_sentence_is_not_oblique_witness :
  ∃ self : Sentence.t,
    Sentence.__init__ ["611"; "DEC"; "   "] = Ok self
    ∧ Sentence.sentenceList self = []
    ∧ Sentence.outOblique self = false.
Proof.
  eexists. split; [vm_compute; reflexivity |].
  destruct (blank_sentence_is_not_oblique ["611"; "DEC"; "   "] _ eq_refl eq_refl)
    as (Hnil & _ & Hflag).
  split; [exact Hnil | exact Hflag].
Defined.

(** X9. The flag depends on the token list alone: two sentences with the same
    tokens have the same flag, whatever their languages, their inflections
    and the whitespace of their sentence strings. *)
Theorem outOblique_depends_on_tokens_only (infoList infoList' : list string)
    (self self' : Sentence.t) :
  Sentence.__init__ infoList = Ok self →
  Sentence.__init__ infoList' = Ok self' →
  Sentence.sentenceList self = Sentence.sentenceList self' →
  Sentence.outOblique self = Sentence.outOblique self'.
Proof.
  intros Hinit Hinit' Htokens.
  apply flag_of_tokens in Hinit as [-> _], Hinit' as [-> _].
  by rewrite Htokens.
Qed.

Lemma outOblique_depends_on_tokens_only_witness :
  ∃ self self' : Sentence.t,
    Sentence.__init__ ["611"; "DEC"; "O2 S O1 P O3"] = Ok self
    ∧ Sentence.__init__ ["584"; "Q"; "  O2 S  O1 P O3 "; "more"] = Ok self'
    ∧ Sentence.outOblique self = Sentence.outOblique self'.
Proof.
  eexists _, _. split; [vm_compute; reflexivity |].
  split; [vm_compute; reflexivity |].
  apply (outOblique_depends_on_tokens_only ["611"; "DEC"; "O2 S O1 P O3"]
           ["584"; "Q"; "  O2 S  O1 P O3 "; "more"]); reflexivity.
Defined.

(** ** The sentence loop of a trial *)

Section SentenceLoop.
Context {Ext Child : Type}.
Context `{!Runtime Ext, !ColagDomain Ext, !NDChild Ext Child}.

Lemma consumptions_app tr tr' :
  consumptions (tr ++ tr') = (consumptions tr + consumptions tr')%nat.
Proof.
  induction tr as [|[b g err|err] tr IH]; simpl; [done | done |].
  by rewrite IH.
Qed.

(** The events that [n] iterations add: never more than [n] sampling calls,
    a consumption for each sampling call but possibly the last, and [n] full
    rounds when the loop returns. *)
Lemma run_child_loop_rounds language noise n :
  ∀ aChild w,
    ∃ evs,
      trace (run_child_loop language noise n aChild w).2 = trace w ++ evs
      ∧ (calls true evs + calls false evs ≤ n)%nat
      ∧ (consumptions evs ≤ calls true evs + calls false evs)%nat
      ∧ (calls true evs + calls false evs ≤ consumptions evs + 1)%nat
      ∧ (∀ c, (run_child_loop language noise n aChild w).1 = Ok c →
              ∃ paths, length paths = n ∧ evs = rounds language paths).
Proof.
  induction n as [|n IH]; intros aChild w.
  - exists []. simpl. rewrite app_nil_r.
    split_and!; [done | lia | lia | lia |]. intros c _. by exists [].
  - rewrite run_child_loop_step.
    destruct (random (ext w)) as [u e1]. cbv zeta.
    set (b := num_lt (Finite u) noise).
    assert (Hone : (calls true [Sampled b language None]
                    + calls false [Sampled b language None] = 1)%nat)
      by (by destruct b).
    destruct ((if b then get_sentence_not_in_language language
               else get_sentence_in_language language) e1) as [[s|err] e2].
    + destruct (consumeSentence aChild s e2) as [[c|err] e3].
      * edestruct IH as (evs & Htr & Hle & Hcs & Hsc & Hok). rewrite Htr.
        cbn [trace error_of].
        exists (Sampled b language None :: Consumed None :: evs).
        split; [by rewrite <- !app_assoc |].
        change (Sampled b language None :: Consumed None :: evs)
          with ([Sampled b language None] ++ [Consumed None] ++ evs).
        rewrite !calls_app, !consumptions_app. cbn [calls consumptions] in *.
        split_and!; [lia | lia | lia |].
        intros c' Hc'. destruct (Hok c' Hc') as (paths & Hlen & ->).
        exists (b :: paths). split; [simpl; lia | done].
      * cbn [fst snd trace error_of].
        exists [Sampled b language None; Consumed (Some err)].
        split; [by rewrite <- !app_assoc |].
        change [Sampled b language None; Consumed (Some err)]
          with ([Sampled b language None] ++ [Consumed (Some err)]).
        rewrite !calls_app, !consumptions_app. cbn [calls consumptions] in *.
        split_and!; [lia | lia | lia | done].
    + cbn [fst snd trace error_of].
      exists [Sampled b language (Some err)].
      split; [done |].
      assert (Hone' : (calls true [Sampled b language (Some err)]
                       + calls false [Sampled b language (Some err)] = 1)%nat)
        by (by destruct b).
      cbn [consumptions]. split_and!; [lia | lia | lia | done].
Qed.

(** X10. Whatever the noise: [run_child] makes at most one sampling call per
    sentence of the count, each consumed before the next is sampled; and when
    it returns, its trace is exactly one round per sentence, sample then
    consume, all returning normally. *)
Theorem run_child_samples_and_consumes_in_rounds (language : Z)
    (noise rate conservativerate : number) (numberofsentences : Z) (e : Ext) :
  (calls true
     (trace (run (run_child language noise rate conservativerate
                    numberofsentences) e).2)
   + calls false
       (trace (run (run_child language noise rate conservativerate
                      numberofsentences) e).2)
   ≤ Z.to_nat numberofsentences)%nat
  ∧ (consumptions
       (trace (run (run_child language noise rate conservativerate
                      numberofsentences) e).2)
     ≤ calls true
         (trace (run (run_child language noise rate conservativerate
                        numberofsentences) e).2)
       + calls false
           (trace (run (run_child language noise rate conservativerate
                          numberofsentences) e).2)
     ≤ consumptions
         (trace (run (run_child language noise rate conservativerate
                        numberofsentences) e).2)
       + 1)%nat
  ∧ (∀ aChild : Child,
       (run (run_child language noise rate conservativerate
               numberofsentences) e).1 = Ok aChild →
       ∃ paths : list bool,
         length paths = Z.to_nat numberofsentences
         ∧ trace (run (run_child language noise rate conservativerate
                         numberofsentences) e).2
           = rounds language paths).
Proof.
  unfold run, run_child.
  destruct (run_child_loop_rounds language noise (Z.to_nat numberofsentences)
              (InstrumentedNDChild rate conservativerate language)
              {| ext := e; trace := [] |})
    as (evs & Htr & Hle & Hcs & Hsc & Hok).
  rewrite Htr. cbn [trace app]. split_and!; [done | lia | lia | done].
Qed.

(** X11. A trial whose sentence count is zero or negative draws no random
    number and asks the domain nothing: it returns the record of the learner
    as constructed, with the two clock readings taken one after the other,
    also for a grammar that the domain would reject. *)
Theorem run_trial_without_sentences (params : TrialParameters) (e : Ext) :
  numberofsentences params ≤ 0 →
  run (run_trial params) e
  = (Ok (results_dict params
           (InstrumentedNDChild (rate params) (conservativerate params)
              (language params))
           (now e).1 (now (now e).2).1),
     {| ext := (now (now e).2).2; trace := [] |}).
Proof.
  intros Hk. unfold run. rewrite run_trial_unfold. cbn [ext trace].
  destruct (now e) as [then_ e0]. cbv zeta. unfold run_child.
  replace (Z.to_nat (numberofsentences params)) with 0%nat by lia.
  cbn [run_child_loop fst snd]. unfold mret, M_ret. cbn [fst snd ext trace].
  by destruct (now e0) as [now_ e1].
Qed.

(** X12. With every value of [random()] in [0,1): a noise of 1 or more, or
    plus infinity, never takes the in-language path; a noise of 0 or less,
    or minus infinity, or NaN, never takes the not-in-language path. *)
Theorem noise_beyond_the_bounds (language : Z)
    (noise rate conservativerate : number) (numberofsentences : Z) (e : Ext) :
  (∀ e', (0 <= (random e').1)%Q ∧ ((random e').1 < 1)%Q) →
  ((noise = PosInf ∨ ∃ q, noise = Finite q ∧ (1 <= q)%Q) →
     calls false
       (trace (run (run_child language noise rate conservativerate
                      numberofsentences) e).2) = 0%nat)
  ∧ ((noise = NegInf ∨ noise = NaN ∨ ∃ q, noise = Finite q ∧ (q <= 0)%Q) →
     calls true
       (trace (run (run_child language noise rate conservativerate
                      numberofsentences) e).2) = 0%nat).
Proof.
  intros Hrandom. unfold run, run_child. split; intros Hnoise.
  - apply (run_child_loop_one_path language noise true).
    intros e'. destruct (Hrandom e') as [_ Hlt].
    destruct Hnoise as [-> | (q & -> & Hq)]; [done |].
    unfold num_lt. destruct ((random e').1 ?= q)%Q eqn:Hc; [| done |]; exfalso.
    + apply Qeq_alt in Hc. lra.
    + apply Qgt_alt in Hc. lra.
  - apply (run_child_loop_one_path language noise false).
    intros e'. destruct (Hrandom e') as [Hge _].
    destruct Hnoise as [-> | [-> | (q & -> & Hq)]]; [done | done |].
    unfold num_lt. destruct ((random e').1 ?= q)%Q eqn:Hc; [done | | done].
    exfalso. apply Qlt_alt in Hc. lra.
Qed.

End SentenceLoop.

Lemma run_child_samples_and_consumes_in_rounds_witness :
  ∃ paths : list bool,
    length paths = 3%nat
    ∧ trace
        (run
           (@run_child nat StandIn.child (StandIn.runtime (1 # 2))
              StandIn.domain (StandIn.learner id) Language.German
              (Finite (1 # 4)) ExperimentDefaults.rate
              ExperimentDefaults.conservativerate 3)
           0%nat).2
      = rounds Language.German paths.
Proof.
  apply (proj2 (proj2
           (@run_child_samples_and_consumes_in_rounds nat StandIn.child
              (StandIn.runtime (1 # 2)) StandIn.domain (StandIn.learner id)
              Language.German (Finite (1 # 4)) ExperimentDefaults.rate
              ExperimentDefaults.conservativerate 3 0%nat))
           {| StandIn.configured := Language.German; StandIn.consumed := 3 |}).
  reflexivity.
Defined.

Lemma run_trial_without_sentences_witness :
  (run
     (@run_trial nat StandIn.child (StandIn.runtime (1 # 2)) StandIn.domain
        (StandIn.learner id)
        {| language := 999;
           noise := Finite (1 # 2);
           rate := ExperimentDefaults.rate;
           conservativerate := ExperimentDefaults.conservativerate;
           numberofsentences := 0 |})
     7%nat).2
  = {| ext := 9%nat; trace := [] |}.
Proof.
  rewrite (@run_trial_without_sentences nat StandIn.child
             (StandIn.runtime (1 # 2)) StandIn.domain (StandIn.learner id)
             {| language := 999;
                noise := Finite (1 # 2);
                rate := ExperimentDefaults.rate;
                conservativerate := ExperimentDefaults.conservativerate;
                numberofsentences := 0 |}
             7%nat).
  - reflexivity.
  - simpl. lia.
Defined.

Lemma noise_beyond_the_bounds_witness :
  calls false
    (trace
       (run
          (@run_child nat StandIn.child (StandIn.runtime (1 # 2)) StandIn.domain
             (StandIn.learner id) Language.English (Finite (15 # 10))
             ExperimentDefaults.rate ExperimentDefaults.conservativerate 10)
          0%nat).2)
  = 0%nat
  ∧ calls true
      (trace
         (run
            (@run_child nat StandIn.child (StandIn.runtime (1 # 2))
               StandIn.domain (StandIn.learner id) Language.English NaN
               ExperimentDefaults.rate ExperimentDefaults.conservativerate 10)
            0%nat).2)
    = 0%nat.
Proof.
  split.
  - apply (@noise_beyond_the_bounds nat StandIn.child (StandIn.runtime (1 # 2))
             StandIn.domain (StandIn.learner id) Language.English
             (Finite (15 # 10)) ExperimentDefaults.rate
             ExperimentDefaults.conservativerate 10 0%nat).
    + intros e'. simpl. split; [discriminate | reflexivity].
    + right. exists (15 # 10). split; [reflexivity | discriminate].
  - apply (@noise_beyond_the_bounds nat StandIn.child (StandIn.runtime (1 # 2))
             StandIn.domain (StandIn.learner id) Language.English NaN
             ExperimentDefaults.rate ExperimentDefaults.conservativerate 10
             0%nat).
    + intros e'. simpl. split; [discriminate | reflexivity].
    + right. by left.
Defined.

(** ** The record of a trial *)

Section TrialRecord.
Context {Ext Child : Type}.
Context `{!Runtime Ext, !ColagDomain Ext, !NDChild Ext Child}.

(** A record is built on the child that [run_child] returned, started after
    the first clock reading, and on the two clock readings. *)
Lemma run_trial_record params e results :
  (run (run_trial params) e).1 = Ok results →
  ∃ child now_,
    (run (run_child (language params) (noise params) (rate params)
            (conservativerate params) (numberofsentences params))
       (now e).2).1 = Ok child
    ∧ results = results_dict params child (now e).1 now_.
Proof.
  unfold run. rewrite run_trial_unfold. cbn [ext trace].
  destruct (now e) as [then_ e0]. cbv zeta. cbn [fst snd].
  destruct (run_child _ _ _ _ _ _) as [[child|err] w1]; cbn [fst snd]; [| done].
  destruct (now (ext w1)) as [now_ e1]. intros [= <-].
  by exists child, now_.
Qed.


Lemma dom_asdict params : dom (asdict params) = list_to_set field_names.
Proof.
  unfold asdict, field_names. rewrite !dom_insert_L, dom_empty_L. simpl.
  apply set_eq. intros key. rewrite !elem_of_union, !elem_of_singleton.
  rewrite elem_of_empty. tauto.
Qed.

(** X13. Every record that [run_trial] returns holds the five fields of the
    trial's parameters, under their names and with their values, whatever
    the learner's grammar holds. *)
Theorem run_trial_record_holds_the_parameters (params : TrialParameters)
    (e : Ext) (results : gmap string value) :
  (run (run_trial params) e).1 = Ok results →
  results !! "language" = Some (VInt (language params))
  ∧ results !! "noise" = Some (VNum (noise params))
  ∧ results !! "rate" = Some (VNum (rate params))
  ∧ results !! "conservativerate" = Some (VNum (conservativerate params))
  ∧ results !! "numberofsentences" = Some (VInt (numberofsentences params)).
Proof.
  intros Hr. apply run_trial_record in Hr as (child & now_ & _ & ->).
  apply results_dict_params.
Qed.


(** X15. The keys of a record are the five parameter names, the keys of the
    learner's grammar, and ["timestamp"], ["duration"] and ["language"]:
    nothing else gets in and none of these is lost. *)
Theorem run_trial_record_keys (params : TrialParameters) (e : Ext)
    (results : gmap string value) :
  (run (run_trial params) e).1 = Ok results →
  ∃ child : Child,
    (run (run_child (language params) (noise params) (rate params)
            (conservativerate params) (numberofsentences params))
       (now e).2).1 = Ok child
    ∧ dom results
      = list_to_set field_names ∪ dom (grammar child)
        ∪ {[ "timestamp"; "duration"; "language" ]}.
Proof.
  intros Hr. apply run_trial_record in Hr as (child & now_ & Hchild & ->).
  exists child. split; [done |].
  unfold results_dict, dict_update, leading_entries.
  rewrite !dom_union_L, dom_asdict, !dom_insert_L, dom_empty_L.
  apply set_eq. intros key. rewrite !elem_of_union, !elem_of_singleton.
  rewrite elem_of_empty. tauto.
Qed.

End TrialRecord.

Lemma run_trial_record_holds_the_parameters_witness :
  ∃ results : gmap string value,
    (run
       (@run_trial nat StandIn.child (StandIn.runtime (1 # 2)) StandIn.domain
          (StandIn.learner id)
          {| language := Language.German;
             noise := Finite (1 # 4);
             rate := ExperimentDefaults.rate;
             conservativerate := ExperimentDefaults.conservativerate;
             numberofsentences := 3 |})
       0%nat).1
    = Ok results
    ∧ results !! "noise" = Some (VNum (Finite (1 # 4))).
Proof.
  eexists. split; [vm_compute; reflexivity |].
  apply (@run_trial_record_holds_the_parameters nat StandIn.child
           (StandIn.runtime (1 # 2)) StandIn.domain (StandIn.learner id)
           {| language := Language.German;
              noise := Finite (1 # 4);
              rate := ExperimentDefaults.rate;
              conservativerate := ExperimentDefaults.conservativerate;
              numberofsentences := 3 |}
           0%nat).
  reflexivity.
Defined.


Lemma run_trial_record_keys_witness :
  ∃ results : gmap string value,
    (run
       (@run_trial nat StandIn.child (StandIn.runtime (1 # 2)) StandIn.domain
          (StandIn.learner id)
          {| language := Language.German;
             noise := Finite (1 # 4);
             rate := ExperimentDefaults.rate;
             conservativerate := ExperimentDefaults.conservativerate;
             numberofsentences := 3 |})
       0%nat).1
    = Ok results
    ∧ "SP" ∈ dom results.
Proof.
  eexists.
  destruct (@run_trial_record_keys nat StandIn.child
              (StandIn.runtime (1 # 2)) StandIn.domain (StandIn.learner id)
              {| language := Language.German;
                 noise := Finite (1 # 4);
                 rate := ExperimentDefaults.rate;
                 conservativerate := ExperimentDefaults.conservativerate;
                 numberofsentences := 3 |}
              0%nat _ eq_refl) as (child & _ & Hdom).
  split; [reflexivity |]. rewrite Hdom.
  apply elem_of_union_l, elem_of_union_r. simpl.
  rewrite dom_singleton_L. by apply elem_of_singleton.
Defined.

(** ** The trials of an experiment *)

Section TrialList.
Import Trials.
Variable params : ExperimentParameters.

Lemma count_app {A} (f : A → bool) l l' :
  count f (l ++ l') = (count f l + count f l')%nat.
Proof. unfold count. by rewrite List.filter_app, length_app. Qed.

Lemma count_replicate {A} (f : A → bool) k x :
  count f (replicate k x) = if f x then k else 0%nat.
Proof.
  unfold count. induction k as [|k IH]; simpl; [by destruct (f x) |].
  destruct (f x) eqn:Hx; simpl; [by rewrite IH | done].
Qed.

Lemma count_of_noises (P : Z → bool) (Q : number → bool) lang noises :
  count (λ t, P (language t) && Q (noise t)) (of_noises params lang noises)
  = if P lang then (count Q noises * replications params)%nat else 0%nat.
Proof.
  induction noises as [|noise noises IH].
  - by destruct (P lang).
  - rewrite of_noises_cons, count_app, count_replicate, IH. simpl.
    unfold count. simpl.
    destruct (P lang), (Q noise); simpl; lia.
Qed.

(** Looking up in blocks of one length. *)
Lemma lookup_flat_map_blocks {A B} (f : A → list B) (k : nat) (l : list A)
    (i : nat) :
  (0 < k)%nat →
  (∀ x, length (f x) = k) →
  flat_map f l !! i = l !! (i / k)%nat ≫= λ x, f x !! (i mod k)%nat.
Proof.
  intros Hk Hlen. revert i. induction l as [|x l IH]; intros i; simpl.
  - by rewrite !lookup_nil.
  - destruct (decide (i < k)%nat) as [Hlt|Hge].
    + rewrite lookup_app_l by (by rewrite Hlen).
      by rewrite Nat.div_small, Nat.mod_small.
    + rewrite lookup_app_r by (rewrite Hlen; lia). rewrite Hlen, IH.
      assert (Hd : (i / k = S ((i - k) / k))%nat).
      { replace i with ((i - k) + 1 * k)%nat at 1 by lia.
        rewrite Nat.div_add by lia. lia. }
      assert (Hm : (i mod k = (i - k) mod k)%nat).
      { replace i with ((i - k) + 1 * k)%nat at 1 by lia.
        by rewrite Nat.Div0.mod_add. }
      by rewrite Hd, Hm.
Qed.

Lemma lookup_of_noises lang noises (j : nat) :
  (0 < replications params)%nat →
  of_noises params lang noises !! j
  = element params lang <$> noises !! (j / replications params)%nat.
Proof.
  intros Hr. unfold of_noises.
  rewrite (lookup_flat_map_blocks _ (replications params)); [| done |].
  - destruct (noises !! _) as [noise|]; [| done]. simpl.
    rewrite map_const_seq.
    apply lookup_replicate_2, Nat.mod_upper_bound. lia.
  - intros noise. by rewrite length_map, length_seq.
Qed.

End TrialList.

(** X16. The generator yields nothing exactly when there is no language, or
    no noise level, or [num_echildren] is zero or negative; and that is
    exactly when its first pull is [StopIteration]. *)
Theorem trials_empty_iff (params : ExperimentParameters) :
  (Trials.unrolled params = []
   ↔ languages params = [] ∨ noise_levels params = []
     ∨ num_echildren params ≤ 0)
  ∧ (Trials.unrolled params = []
     ↔ (Trials.next params (Trials.trials params)).1 = None).
Proof.
  split.
  - rewrite <- length_zero_iff_nil. unfold Trials.unrolled.
    rewrite length_of_langs, !Nat.eq_mul_0, !length_zero_iff_nil.
    unfold Trials.replications. split.
    + intros [[? | ?] | Hr]; [by left | by right; left | right; right; lia].
    + intros [? | [? | Hr]]; [by left; left | by left; right | right; lia].
  - pose proof (yields_unrolled params) as Hy. split.
    + intros Hnil. rewrite Hnil in Hy.
      inversion Hy as [st st' Hn|]; subst. by rewrite Hn.
    + intros Hnone.
      destruct (Trials.next params (Trials.trials params)) as [o st'] eqn:Hn.
      simpl in Hnone. subst o.
      apply (yields_unique params (Trials.trials params)); [done |].
      by eapply Trials.yields_stop.
Qed.

(** X17. For any property of a language and any property of a noise level,
    the number of generated trials whose language and noise have them is the
    number of such languages, times the number of such noise levels, times
    the number of replications. *)
Theorem trials_multiplicity (params : ExperimentParameters) (P : Z → bool)
    (Q : number → bool) :
  count (λ t, P (language t) && Q (noise t)) (Trials.unrolled params)
  = (count P (languages params) * count Q (noise_levels params)
     * Trials.replications params)%nat.
Proof.
  unfold Trials.unrolled.
  induction (languages params) as [|lang langs IH]; [done |].
  rewrite of_langs_cons, count_app, count_of_noises, IH.
  unfold count. simpl. destruct (P lang); simpl; lia.
Qed.

(** X18. The total [num_trials] that [run_simulations] computes is the
    number of trials that the generator yields exactly when [num_echildren]
    is not negative or one of the two lists is empty; otherwise the total is
    negative while the generator yields nothing. *)
Theorem num_trials_is_the_count_iff (params : ExperimentParameters) :
  (Z.of_nat (length (Trials.unrolled params)) = Trials.num_trials params
   ↔ 0 ≤ num_echildren params ∨ languages params = []
     ∨ noise_levels params = [])
  ∧ (num_echildren params < 0 →
     languages params ≠ [] →
     noise_levels params ≠ [] →
     Trials.num_trials params < 0 ∧ Trials.unrolled params = []).
Proof.
  assert (Hlen : length (Trials.unrolled params)
    = (length (languages params) * length (noise_levels params)
       * Trials.replications params)%nat) by apply length_of_langs.
  unfold Trials.num_trials, Trials.replications in *.
  assert (Hg : languages params = [] ↔ length (languages params) = 0%nat)
    by (by rewrite length_zero_iff_nil).
  assert (Hn : noise_levels params = [] ↔ length (noise_levels params) = 0%nat)
    by (by rewrite length_zero_iff_nil).
  split.
  - rewrite Hlen, Hg, Hn. split.
    + intros Heq. destruct (Z_lt_le_dec (num_echildren params) 0) as [Hneg|];
        [| by left].
      right. replace (Z.to_nat (num_echildren params)) with 0%nat in Heq by lia.
      rewrite Nat.mul_0_r in Heq. nia.
    + intros [Hpos | [H0 | H0]].
      * rewrite !Nat2Z.inj_mul, Z2Nat.id by done. lia.
      * rewrite H0. simpl. lia.
      * rewrite H0, Nat.mul_0_r. simpl. lia.
  - intros Hneg Hlangs Hnoises. split.
    + rewrite Hg in Hlangs. rewrite Hn in Hnoises. nia.
    + apply length_zero_iff_nil. rewrite Hlen. lia.
Qed.

Lemma num_trials_is_the_count_iff_witness :
  Trials.num_trials
    {| languages := [Language.English; Language.French];
       noise_levels := [Finite 0];
       learningrate := ExperimentDefaults.rate;
       conservative_learningrate := ExperimentDefaults.conservativerate;
       num_sentences := 10;
       num_echildren := -3;
       num_procs := 2 |}
  < 0
  ∧ Trials.unrolled
      {| languages := [Language.English; Language.French];
         noise_levels := [Finite 0];
         learningrate := ExperimentDefaults.rate;
         conservative_learningrate := ExperimentDefaults.conservativerate;
         num_sentences := 10;
         num_echildren := -3;
         num_procs := 2 |}
    = [].
Proof.
  apply (proj2 (num_trials_is_the_count_iff
                  {| languages := [Language.English; Language.French];
                     noise_levels := [Finite 0];
                     learningrate := ExperimentDefaults.rate;
                     conservative_learningrate :=
                       ExperimentDefaults.conservativerate;
                     num_sentences := 10;
                     num_echildren := -3;
                     num_procs := 2 |})).
  - simpl. lia.
  - discriminate.
  - discriminate.
Defined.

(** X19. The trial at position [i] of the generator, for [i] below the
    count, is the one of the language at position [i / (n*r)] and of the
    noise level at position [(i mod (n*r)) / r]; from the count on there is
    no trial. *)
Theorem trials_lookup (params : ExperimentParameters) (i : nat) :
  ((i < length (languages params) * length (noise_levels params)
        * Trials.replications params)%nat →
   ∃ (lang : Z) (noise : number),
     languages params
       !! (i / (length (noise_levels params) * Trials.replications params))%nat
     = Some lang
     ∧ noise_levels params
         !! (i mod (length (noise_levels params) * Trials.replications params)
             / Trials.replications params)%nat
       = Some noise
     ∧ Trials.unrolled params !! i = Some (Trials.element params lang noise))
  ∧ ((length (languages params) * length (noise_levels params)
      * Trials.replications params ≤ i)%nat →
     Trials.unrolled params !! i = None).
Proof.
  split.
  - intros Hi.
    set (n := length (noise_levels params)) in *.
    set (r := Trials.replications params) in *.
    assert (Hn : (0 < n)%nat) by (destruct n; [lia | lia]).
    assert (Hr : (0 < r)%nat) by (destruct r; [lia | lia]).
    assert (Hnr : (0 < n * r)%nat) by nia.
    unfold Trials.unrolled, Trials.of_langs.
    rewrite (lookup_flat_map_blocks _ (n * r)); [| done |];
      [| intros lang; apply length_of_noises].
    destruct (lookup_lt_is_Some_2 (languages params) (i / (n * r))%nat)
      as [lang Hlang].
    { apply Nat.Div0.div_lt_upper_bound. lia. }
    rewrite Hlang. simpl. rewrite lookup_of_noises by done. fold r.
    destruct (lookup_lt_is_Some_2 (noise_levels params)
                (i mod (n * r) / r)%nat) as [noise Hnoise].
    { apply Nat.Div0.div_lt_upper_bound. fold n.
      pose proof (Nat.mod_upper_bound i (n * r)). lia. }
    rewrite Hnoise. simpl. by exists lang, noise.
  - intros Hi. apply lookup_ge_None. unfold Trials.unrolled.
    by rewrite length_of_langs.
Qed.

Lemma trials_lookup_witness :
  ∃ (lang : Z) (noise : number),
    [Language.English; Language.French] !! 1%nat = Some lang
    ∧ [Finite 0; Finite (1 # 2)] !! 0%nat = Some noise
    ∧ Trials.unrolled
        {| languages := [Language.English; Language.French];
           noise_levels := [Finite 0; Finite (1 # 2)];
           learningrate := ExperimentDefaults.rate;
           conservative_learningrate := ExperimentDefaults.conservativerate;
           num_sentences := 10;
           num_echildren := 3;
           num_procs := 2 |}
        !! 7%nat
      = Some
          (Trials.element
             {| languages := [Language.English; Language.French];
                noise_levels := [Finite 0; Finite (1 # 2)];
                learningrate := ExperimentDefaults.rate;
                conservative_learningrate :=
                  ExperimentDefaults.conservativerate;
                num_sentences := 10;
                num_echildren := 3;
                num_procs := 2 |}
             lang noise).
Proof.
  apply (proj1 (trials_lookup
                  {| languages := [Language.English; Language.French];
                     noise_levels := [Finite 0; Finite (1 # 2)];
                     learningrate := ExperimentDefaults.rate;
                     conservative_learningrate :=
                       ExperimentDefaults.conservativerate;
                     num_sentences := 10;
                     num_echildren := 3;
                     num_procs := 2 |}
                  7%nat)).
  simpl. lia.
Defined.

(** ** What the parser returns *)

Section ParsedArguments.
Variable float : string → option number.
Variable int : string → option Z.

Lemma option_arg_Ok {A} (type : string → option A) default given a :
  option_arg type default given = Ok a →
  match given with
  | None => a = default
  | Some s => type s = Some a
  end.
Proof.
  destruct given as [s|]; simpl; [| by intros [= <-]].
  unfold convert. destruct (type s); [by intros [= <-] | done].
Qed.

Lemma option_args_Ok {A} (type : string → option A) default given l :
  option_args type default given = Ok l →
  match given with
  | None => l = default
  | Some args => args ≠ [] ∧ Forall2 (λ s x, type s = Some x) args l
  end.
Proof.
  destruct given as [[|s args]|]; simpl; [done | | by intros [= <-]].
  intros Hconv. split; [done |]. by apply (convert_all_Ok type (s :: args)).
Qed.



(** What a successful parse has put in each field. *)
Lemma parse_arguments_Ok cpu_count argv args :
  parse_arguments float int cpu_count argv = Ok args →
  option_arg float ExperimentDefaults.rate (opt_rate argv) = Ok (args_rate args)
  ∧ option_arg float ExperimentDefaults.conservativerate (opt_cons_rate argv)
    = Ok (args_cons_rate args)
  ∧ option_arg int ExperimentDefaults.numechildren (opt_num_echildren argv)
    = Ok (args_num_echildren args)
  ∧ option_arg int ExperimentDefaults.numberofsentences (opt_num_sents argv)
    = Ok (args_num_sents args)
  ∧ option_args float ExperimentDefaults.noise_levels (opt_noise_levels argv)
    = Ok (args_noise_levels args)
  ∧ option_arg int cpu_count (opt_num_procs argv) = Ok (args_num_procs args)
  ∧ args_verbose args = opt_verbose argv.
Proof.
  unfold parse_arguments.
  repeat match goal with
  | |- context [option_arg ?t ?d ?g] =>
      destruct (option_arg t d g); simpl; [| done]
  | |- context [option_args ?t ?d ?g] =>
      destruct (option_args t d g); simpl; [| done]
  end.
  by intros [= <-].
Qed.

End ParsedArguments.



(** X21. In the namespace that [parse_arguments] returns, each field is the
    converted argument of its option when the option is given and its
    default when it is not: 0.9, 0.0005, 100, 500000, the five default noise
    levels, the number of processors; the noise levels are the converted
    arguments in their order; and the verbose flag is the one given. *)
Theorem parse_arguments_fields (float : string → option number)
    (int : string → option Z) (cpu_count : Z) (argv : CommandLine)
    (args : Namespace) :
  parse_arguments float int cpu_count argv = Ok args →
  match opt_rate argv with
  | None => args_rate args = Finite (9 # 10)
  | Some s => float s = Some (args_rate args)
  end
  ∧ match opt_cons_rate argv with
    | None => args_cons_rate args = Finite (5 # 10000)
    | Some s => float s = Some (args_cons_rate args)
    end
  ∧ match opt_num_echildren argv with
    | None => args_num_echildren args = 100
    | Some s => int s = Some (args_num_echildren args)
    end
  ∧ match opt_num_sents argv with
    | None => args_num_sents args = 500000
    | Some s => int s = Some (args_num_sents args)
    end
  ∧ match opt_noise_levels argv with
    | None =>
        args_noise_levels args
        = [Finite 0; Finite (5 # 100); Finite (10 # 100); Finite (25 # 100);
           Finite (50 # 100)]
    | Some l =>
        l ≠ [] ∧ Forall2 (λ s x, float s = Some x) l (args_noise_levels args)
    end
  ∧ match opt_num_procs argv with
    | None => args_num_procs args = cpu_count
    | Some s => int s = Some (args_num_procs args)
    end
  ∧ args_verbose args = opt_verbose argv.
Proof.
  intros Hargs.
  apply parse_arguments_Ok in Hargs as (H1 & H2 & H3 & H4 & H5 & H6 & H7).
  apply option_arg_Ok in H1, H2, H3, H4, H6. apply option_args_Ok in H5.
  split_and!; done.
Qed.

Lemma parse_arguments_fields_witness :
  ∃ args : Namespace,
    parse_arguments StandIn.float StandIn.int StandIn.cpu_count
      {| opt_rate := Some "0.5";
         opt_cons_rate := None;
         opt_num_echildren := Some "10";
         opt_num_sents := None;
         opt_noise_levels := Some ["0.25"; "0"];
         opt_num_procs := None;
         opt_verbose := true |}
    = Ok args
    ∧ args_num_sents args = 500000.
Proof.
  eexists. split; [vm_compute; reflexivity |].
  apply (parse_arguments_fields StandIn.float StandIn.int StandIn.cpu_count
           {| opt_rate := Some "0.5";
              opt_cons_rate := None;
              opt_num_echildren := Some "10";
              opt_num_sents := None;
              opt_noise_levels := Some ["0.25"; "0"];
              opt_num_procs := None;
              opt_verbose := true |}).
  reflexivity.
Defined.

(** X22. The experiment that [main] builds always has the four languages
    611, 584, 2253 and 3856, whatever the command line, so it has four times
    as many trials as noise levels times replications; and its trials do not
    depend on the verbose flag, on the number of processes or on the number
    of processors: two command lines that give the same rate, conservative
    rate, number of echildren, number of sentences and noise levels have the
    same trials. *)
Theorem main_experiment_trials (float : string → option number)
    (int : string → option Z) (cpu_count cpu_count' : Z)
    (argv argv' : CommandLine) (params params' : ExperimentParameters) :
  main_experiment float int cpu_count argv = Ok params →
  main_experiment float int cpu_count' argv' = Ok params' →
  opt_rate argv = opt_rate argv' →
  opt_cons_rate argv = opt_cons_rate argv' →
  opt_num_echildren argv = opt_num_echildren argv' →
  opt_num_sents argv = opt_num_sents argv' →
  opt_noise_levels argv = opt_noise_levels argv' →
  languages params = [611; 584; 2253; 3856]
  ∧ length (Trials.unrolled params)
    = (4 * length (noise_levels params) * Z.to_nat (num_echildren params))%nat
  ∧ Trials.unrolled params = Trials.unrolled params'.
Proof.
  unfold main_experiment. intros Hp Hp' Er Ec Ee Es En.
  destruct (parse_arguments float int cpu_count argv) as [args|] eqn:Hargs;
    [| done].
  destruct (parse_arguments float int cpu_count' argv') as [args'|] eqn:Hargs';
    [| done].
  injection Hp as <-. injection Hp' as <-.
  apply parse_arguments_Ok in Hargs as (H1 & H2 & H3 & H4 & H5 & _).
  apply parse_arguments_Ok in Hargs' as (H1' & H2' & H3' & H4' & H5' & _).
  rewrite <- Er in H1'. rewrite <- Ec in H2'. rewrite <- Ee in H3'.
  rewrite <- Es in H4'. rewrite <- En in H5'.
  rewrite H1 in H1'. rewrite H2 in H2'. rewrite H3 in H3'. rewrite H4 in H4'.
  rewrite H5 in H5'.
  injection H1' as E1. injection H2' as E2. injection H3' as E3.
  injection H4' as E4. injection H5' as E5.
  split_and!.
  - reflexivity.
  - unfold Trials.unrolled. rewrite length_of_langs. reflexivity.
  - unfold Trials.unrolled, Trials.of_langs, Trials.of_noises, Trials.element,
      Trials.replications, main_params. simpl.
    by rewrite E1, E2, E3, E4, E5.
Qed.

Lemma main_experiment_trials_witness :
  ∃ params params' : ExperimentParameters,
    main_experiment StandIn.float StandIn.int 4
      {| opt_rate := None;
         opt_cons_rate := None;
         opt_num_echildren := Some "2";
         opt_num_sents := Some "10";
         opt_noise_levels := Some ["0.25"];
         opt_num_procs := None;
         opt_verbose := false |}
    = Ok params
    ∧ main_experiment StandIn.float StandIn.int 16
        {| opt_rate := None;
           opt_cons_rate := None;
           opt_num_echildren := Some "2";
           opt_num_sents := Some "10";
           opt_noise_levels := Some ["0.25"];
           opt_num_procs := Some "8";
           opt_verbose := true |}
      = Ok params'
    ∧ length (Trials.unrolled params) = 8%nat
    ∧ Trials.unrolled params = Trials.unrolled params'.
Proof.
  eexists _, _. split; [vm_compute; reflexivity |].
  split; [vm_compute; reflexivity |].
  destruct (main_experiment_trials StandIn.float StandIn.int 4 16
              {| opt_rate := None;
                 opt_cons_rate := None;
                 opt_num_echildren := Some "2";
                 opt_num_sents := Some "10";
                 opt_noise_levels := Some ["0.25"];
                 opt_num_procs := None;
                 opt_verbose := false |}
              {| opt_rate := None;
                 opt_cons_rate := None;
                 opt_num_echildren := Some "2";
                 opt_num_sents := Some "10";
                 opt_noise_levels := Some ["0.25"];
                 opt_num_procs := Some "8";
                 opt_verbose := true |}
              _ _ eq_refl eq_refl eq_refl eq_refl eq_refl eq_refl eq_refl)
    as (_ & Hlen & Hsame).
  split; [exact Hlen | exact Hsame].
Defined.
